(** * Rating engine, matchmaker, rate limiter and percentile calculator
      of [app.py], embedded shallowly.

    Conventions of the embedding.
    - Python [int] is [Z]; the ratings stored in [users.json] are [int]s
      ([BASE_ELO] and the results of [round]).
    - Python [float] arithmetic in [expected_score] / [update_elo] is
      idealised as arithmetic on the real numbers [R] ([10 ** x] is
      [Rpower 10 x]); the float arithmetic of [compute_percentiles] is
      idealised as exact rational arithmetic on [Q].  What double
      precision adds to this is outside the model: [10 ** x] raising
      [OverflowError] for [x] above 308 or so (a rating gap above
      123200), and increments absorbed by ratings beyond 2^53.
    - A [dict] is an association list in insertion order (the iteration
      order of a Python dict); a well-formed dict has pairwise distinct
      keys.
    - A naive [datetime] is its number of microseconds since an arbitrary
      epoch, a [timedelta] a number of microseconds.
    - [str] is [string]; the order of Python strings (by code point) is
      the byte-wise lexicographic order of [String.compare]. *)

From Stdlib Require Import ZArith List Bool String Ascii Lia Permutation Sorted.
From Stdlib Require Import QArith.
From Stdlib Require Import Reals Lra.
Import ListNotations.

Set Implicit Arguments.

(** ** Configuration constants (lines 12-15) *)

Definition BASE_ELO : Z := 1200.
Definition K_FACTOR : Z := 32.
Definition MAX_VOTES_PER_HOUR : nat := 15.
Definition MIN_MATCHES_FOR_STATS : Z := 6.

(** ** Rating engine (lines 50-57) *)

Section RatingEngine.

Local Open Scope R_scope.

(** The largest integer below or equal to [x]. *)
Definition floorR (x : R) : Z := (up x - 1)%Z.

(** Python's [round(x)] of a float with no [ndigits]: the nearest integer,
    a tie going to the even neighbour. *)
Definition py_round (x : R) : Z :=
  let f := floorR x in
  let d := x - IZR f in
  if Rlt_dec d (1 / 2) then f
  else if Rlt_dec (1 / 2) d then (f + 1)%Z
  else if Z.even f then f else (f + 1)%Z.

Definition expected_score (ra rb : R) : R :=
  1 / (1 + Rpower 10 ((rb - ra) / 400)).

Definition update_elo (ra rb sa : R) : Z * Z :=
  let ea := expected_score ra rb in
  let ra_new := ra + IZR K_FACTOR * (sa - ea) in
  let rb_new := rb + IZR K_FACTOR * ((1 - sa) - (1 - ea)) in
  (py_round ra_new, py_round rb_new).

End RatingEngine.

(** ** Python values used by the page *)

(** A computation that may raise [KeyError] (a failed [d[k]]). *)
Inductive result (A : Type) : Type :=
| Ok (a : A)
| KeyError (k : string).

Arguments Ok {A} a.
Arguments KeyError {A} k.

Definition bind {A B : Type} (c : result A) (k : A -> result B) : result B :=
  match c with
  | Ok a => k a
  | KeyError e => KeyError e
  end.

Notation "x <- c ;; k" := (bind c (fun x => k))
  (at level 61, c at next level, right associativity).

(** [dict] with [str] keys, in insertion order. *)
Module Dict.
Section Dict.
Variable V : Type.

Definition t : Type := list (string * V).

Definition keys (d : t) : list string := map fst d.

(** [d.get(k)] *)
Fixpoint get (d : t) (k : string) : option V :=
  match d with
  | [] => None
  | (k', v) :: r => if (k' =? k)%string then Some v else get r k
  end.

(** [k in d] *)
Definition mem (d : t) (k : string) : bool :=
  match get d k with Some _ => true | None => false end.

(** [d[k]], raising [KeyError] on a missing key *)
Definition lookup (d : t) (k : string) : result V :=
  match get d k with Some v => Ok v | None => KeyError k end.

(** [d[k] = v]: an existing key keeps its place, a new one goes last *)
Fixpoint set (d : t) (k : string) (v : V) : t :=
  match d with
  | [] => [(k, v)]
  | (k', v') :: r =>
      if (k' =? k)%string then (k, v) :: r else (k', v') :: set r k v
  end.

(** in-place change of the value stored at [k]: [d[k] = f(d[k])] *)
Definition modify (d : t) (k : string) (f : V -> V) : result t :=
  v <- lookup d k ;; Ok (set d k (f v)).

(** keys pairwise distinct *)
Fixpoint wf (d : t) : bool :=
  match d with
  | [] => true
  | (k, _) :: r => negb (mem r k) && wf r
  end.
End Dict.
End Dict.

Inductive gender_t : Type := Male | Female.

Definition gender_eqb (g h : gender_t) : bool :=
  match g, h with
  | Male, Male | Female, Female => true
  | _, _ => false
  end.

(** A record of [users.json] (lines 135-142); [vote_times] holds the
    datetimes that the ISO strings of the file denote. *)
Record user : Type := mkUser {
  password : string;
  elo : Z;
  pic : option string;
  gender : gender_t;
  vote_times : list Z;
  matches_played : Z
}.

Definition set_elo (r : Z) (u : user) : user :=
  mkUser (password u) r (pic u) (gender u) (vote_times u) (matches_played u).

Definition set_vote_times (ts : list Z) (u : user) : user :=
  mkUser (password u) (elo u) (pic u) (gender u) ts (matches_played u).

Definition incr_matches_played (u : user) : user :=
  mkUser (password u) (elo u) (pic u) (gender u) (vote_times u)
         (matches_played u + 1).

Definition append_vote_time (t : Z) (u : user) : user :=
  set_vote_times (vote_times u ++ [t]) u.

(** An entry of a voter's history: a two-element array of [votes.json]. *)
Definition pair_t : Type := (string * string)%type.

Definition pair_eqb (p q : pair_t) : bool :=
  ((fst p =? fst q) && (snd p =? snd q))%string.

Definition users_t : Type := Dict.t user.
Definition votes_t : Type := Dict.t (list pair_t).

(** The two JSON files. *)
Record store : Type := mkStore {
  users_file : users_t;
  votes_file : votes_t
}.

(** Truth value of [users[u]["pic"]]: [None] and the empty string are false. *)
Definition pic_truthy (p : option string) : bool :=
  match p with
  | Some s => negb (s =? EmptyString)%string
  | None => false
  end.

(** ** Rate limiter (lines 181-187) *)

(** [timedelta(hours=1)] *)
Definition HOUR : Z := 3600 * 1000000.

Definition within_window (now t : Z) : bool := (now - t <? HOUR)%Z.

Definition prune_vote_times (now : Z) (ts : list Z) : list Z :=
  filter (within_window now) ts.

Definition limit_reached (ts : list Z) : bool :=
  (MAX_VOTES_PER_HOUR <=? List.length ts)%nat.

(** What an accepted vote leaves in the voter's list (lines 182, 237). *)
Definition record_vote (now : Z) (ts : list Z) : list Z :=
  prune_vote_times now ts ++ [now].

(** ** Matchmaker (lines 190-226) *)

(** [sorted([x, y])] *)
Definition sorted2 (x y : string) : pair_t :=
  if (y <? x)%string then (y, x) else (x, y).

Definition is_eligible (user_email : string) (user_gender : gender_t)
    (kv : string * user) : bool :=
  pic_truthy (pic (snd kv))
  && negb (fst kv =? user_email)%string
  && gender_eqb (gender (snd kv)) user_gender.

(** lines 190-193; [users[u]] for a key [u] met by the iteration is the
    record stored next to it *)
Definition eligible (users : users_t) (user_email : string)
    (user_gender : gender_t) : list string :=
  map fst (filter (is_eligible user_email user_gender) users).

(** line 205 *)
Definition uploaded_photos_count (users : users_t) : nat :=
  List.length (filter (fun kv => pic_truthy (pic (snd kv))) users).

(** line 206 *)
Definition use_elo_matching (users : users_t) : bool :=
  (30 <=? uploaded_photos_count users)%nat.

(** The pairs the two loops of lines 209-211 go through, in their order. *)
Fixpoint enumerate_pairs (el : list string) : list pair_t :=
  match el with
  | [] => []
  | x :: r => map (sorted2 x) r ++ enumerate_pairs r
  end.

(** [pair in tried_pairs] *)
Definition pair_in (p : pair_t) (tried : list pair_t) : bool :=
  existsb (pair_eqb p) tried.

(** The body of the inner loop, lines 212-221: is [pair] appended? *)
Definition keep_pair (users : users_t) (tried : list pair_t) (use_elo : bool)
    (p : pair_t) : result bool :=
  if pair_in p tried then Ok false
  else if use_elo then
    ua <- Dict.lookup users (fst p) ;;
    ub <- Dict.lookup users (snd p) ;;
    let elo_diff := Z.abs (elo ua - elo ub) in
    Ok (elo_diff <=? 100)%Z
  else Ok true.

Fixpoint filter_pairs (keep : pair_t -> result bool) (l : list pair_t)
    : result (list pair_t) :=
  match l with
  | [] => Ok []
  | p :: r =>
      b <- keep p ;;
      r' <- filter_pairs keep r ;;
      Ok (if b then p :: r' else r')
  end.

Definition possible_pairs (users : users_t) (tried : list pair_t)
    (el : list string) : result (list pair_t) :=
  filter_pairs (keep_pair users tried (use_elo_matching users))
               (enumerate_pairs el).

(** [random.choice] of a non-empty list [p :: r]; [rnd] is the draw. *)
Definition random_choice (A : Type) (rnd : nat) (p : A) (r : list A) : A :=
  nth (rnd mod S (List.length r)) (p :: r) p.

Inductive selection : Type :=
| NotEnoughEligible          (* "Waiting for more uploads from your gender." *)
| NoPairLeft                 (* "You have rated all available pairs." *)
| Pair (a b : string).

(** lines 198-199 *)
Definition ensure_history (votes : votes_t) (user_email : string) : votes_t :=
  if Dict.mem votes user_email then votes else Dict.set votes user_email [].

(** Lines 190-226: the choice of the pair to show, with the [votes] dict
    as the run leaves it in memory. *)
Definition select_pair (users : users_t) (votes : votes_t)
    (user_email : string) (user_gender : gender_t) (rnd : nat)
    : result (selection * votes_t) :=
  let el := eligible users user_email user_gender in
  if (List.length el <? 2)%nat then Ok (NotEnoughEligible, votes)
  else
    let votes := ensure_history votes user_email in
    tried_pairs <- Dict.lookup votes user_email ;;
    pp <- possible_pairs users tried_pairs el ;;
    match pp with
    | [] => Ok (NoPairLeft, votes)
    | p :: r => Ok (Pair (fst (random_choice rnd p r))
                         (snd (random_choice rnd p r)), votes)
    end.

(** ** The voting page (lines 172-253) *)

(** The body of a button, lines 232-239 (and 245-252), up to [st.rerun()];
    [sa] is 1 for the left button and 0 for the right one. *)
Definition cast_vote (users : users_t) (votes : votes_t)
    (user_email : string) (now : Z) (a b : string) (sa : R) : result store :=
  ua <- Dict.lookup users a ;;
  ub <- Dict.lookup users b ;;
  let r := update_elo (IZR (elo ua)) (IZR (elo ub)) sa in
  users <- Dict.modify users a (set_elo (fst r)) ;;
  users <- Dict.modify users b (set_elo (snd r)) ;;
  users <- Dict.modify users a incr_matches_played ;;
  users <- Dict.modify users b incr_matches_played ;;
  votes <- Dict.modify votes user_email (fun h => h ++ [sorted2 a b]) ;;
  users <- Dict.modify users user_email (append_vote_time now) ;;
  (* save_json(USERS_FILE, users); save_json(VOTES_FILE, votes) *)
  Ok (mkStore users votes).

Inductive outcome : Type :=
| RateLimited                 (* "Vote limit reached." *)
| WaitingForUploads
| AllPairsRated
| PairShown (a b : string)    (* both photos drawn, no button pressed *)
| Voted (a b : string) (left_won : bool).

(** One run of the script on the voting page for the logged-in
    [user_email]: the files are loaded (lines 85-86), the page is drawn with
    the clock reading [now] and the draw [rnd]; [left] and [right] tell
    which button, if any, reports a click in this run.  Returns what the
    page did and the files as the run leaves them. *)
Definition vote_page (st : store) (user_email : string) (now : Z) (rnd : nat)
    (left right : bool) : result (outcome * store) :=
  let users := users_file st in
  let votes := votes_file st in
  me <- Dict.lookup users user_email ;;
  let user_gender := gender me in
  let pruned := prune_vote_times now (vote_times me) in
  let users := Dict.set users user_email (set_vote_times pruned me) in
  if limit_reached pruned then Ok (RateLimited, st)
  else
    sv <- select_pair users votes user_email user_gender rnd ;;
    let votes := snd sv in
    match fst sv with
    | NotEnoughEligible => Ok (WaitingForUploads, st)
    | NoPairLeft => Ok (AllPairsRated, st)
    | Pair a b =>
        if left then
          st' <- cast_vote users votes user_email now a b 1%R ;;
          Ok (Voted a b true, st')
        else if right then
          st' <- cast_vote users votes user_email now a b 0%R ;;
          Ok (Voted a b false, st')
        else Ok (PairShown a b, st)
    end.

(** A request to the voting page. *)
Record request : Type := mkRequest {
  req_user : string;
  req_now : Z;
  req_rnd : nat;
  req_left : bool;
  req_right : bool
}.

(** The files after a request; a run that dies of an exception has written
    nothing. *)
Definition serve (st : store) (q : request) : store :=
  match vote_page st (req_user q) (req_now q) (req_rnd q)
                  (req_left q) (req_right q) with
  | Ok (_, st') => st'
  | KeyError _ => st
  end.

Definition serve_all (st : store) (qs : list request) : store :=
  fold_left serve qs st.

(** The history a voter has in [votes], empty when there is none. *)
Definition tried_of (votes : votes_t) (user_email : string) : list pair_t :=
  match Dict.get votes user_email with
  | Some h => h
  | None => []
  end.

Definition history (st : store) (user_email : string) : list pair_t :=
  tried_of (votes_file st) user_email.


(** The timestamps the files hold for a user, none for a missing user. *)
Definition times_of (st : store) (u : string) : list Z :=
  match Dict.get (users_file st) u with
  | Some r => vote_times r
  | None => []
  end.

(** The moments of the votes of [w] that are accepted in the course of the
    requests [qs], oldest first. *)
Fixpoint accepted_times (st : store) (qs : list request) (w : string)
    : list Z :=
  match qs with
  | [] => []
  | q :: r =>
      match vote_page st (req_user q) (req_now q) (req_rnd q)
                      (req_left q) (req_right q) with
      | Ok (Voted _ _ _, _) =>
          if (req_user q =? w)%string then [req_now q] else []
      | _ => []
      end ++ accepted_times (serve st q) r w
  end.

(** ** Percentile calculator (lines 59-66) *)

(** [sorted(l, key=...)] with integer keys: Python's sort is stable, and a
    stable sort has one possible result, the one of this insertion sort. *)
Section Sorted.
Variable A : Type.
Variable key : A -> Z.

Fixpoint insert_by (x : A) (l : list A) : list A :=
  match l with
  | [] => [x]
  | y :: r => if (key x <=? key y)%Z then x :: y :: r else y :: insert_by x r
  end.

Fixpoint sorted_by (l : list A) : list A :=
  match l with
  | [] => []
  | x :: r => insert_by x (sorted_by r)
  end.
End Sorted.

(** Ascending order of the keys, and the order of standing in a list. *)
Definition key_le (A : Type) (key : A -> Z) (x y : A) : Prop :=
  (key x <= key y)%Z.

Definition before (A : Type) (x y : A) (l : list A) : Prop :=
  exists l1 l2 l3, l = l1 ++ x :: l2 ++ y :: l3.

(** [enumerate(l)] counting from [start] *)
Fixpoint enumerate_from (A : Type) (start : nat) (l : list A) : list (nat * A) :=
  match l with
  | [] => []
  | x :: r => (start, x) :: enumerate_from (S start) r
  end.

(** line 64 *)
Definition percentile_of (rank N : nat) : Q :=
  if (1 <? N)%nat
  then (inject_Z (Z.of_nat rank) / inject_Z (Z.of_nat N - 1) * 100)%Q
  else 100%Q.

(** [key=lambda x: x[1]["elo"]] *)
Definition by_elo (x : string * user) : Z := elo (snd x).

Definition compute_percentiles (users_list : users_t) : Dict.t Q :=
  let sorted_users := sorted_by by_elo users_list in
  let N := List.length sorted_users in
  fold_left
    (fun percentiles re =>
       let '(rank, (email, data)) := re in
       Dict.set percentiles email (percentile_of rank N))
    (enumerate_from 0 sorted_users) [].

(** ** Stores used as examples *)

(** The record registration creates (lines 135-142). *)
Definition new_user (pw : string) (g : gender_t) : user :=
  mkUser pw BASE_ELO None g [] 0.

(** The record after an upload (line 281). *)
Definition with_pic (path : string) (u : user) : user :=
  mkUser (password u) (elo u) (Some path) (gender u) (vote_times u)
         (matches_played u).

(** A and B with photos, both at 1200, and a voter V who has judged nothing. *)
Definition duel_store : store :=
  mkStore [("A", with_pic "uploads/A.jpg" (new_user "a" Male));
           ("B", with_pic "uploads/B.jpg" (new_user "b" Male));
           ("V", new_user "v" Male)]%string
          [].

(** [duel_store] once V has pressed the left button at [now]. *)
Definition duel_store_after (now : Z) : store :=
  mkStore [("A", mkUser "a" 1216 (Some "uploads/A.jpg") Male [] 1);
           ("B", mkUser "b" 1184 (Some "uploads/B.jpg") Male [] 1);
           ("V", mkUser "v" 1200 None Male [now] 0)]%string
          [("V", [("A", "B")])]%string.

(** The same three users with B registered before A, and the files once V
    has pressed the left button at [now]. *)
Definition rematch_store : store :=
  mkStore [("B", with_pic "uploads/B.jpg" (new_user "b" Male));
           ("A", with_pic "uploads/A.jpg" (new_user "a" Male));
           ("V", new_user "v" Male)]%string
          [].

Definition rematch_store_after (now : Z) : store :=
  mkStore [("B", mkUser "b" 1184 (Some "uploads/B.jpg") Male [] 1);
           ("A", mkUser "a" 1216 (Some "uploads/A.jpg") Male [] 1);
           ("V", mkUser "v" 1200 None Male [now] 0)]%string
          [("V", [("A", "B")])]%string.

(** A, B and C with photos, all at 1200, and a voter V who has judged
    nothing; and the files once V's click has been booked on A against C
    at [now]. *)
Definition trio_store : store :=
  mkStore [("A", with_pic "uploads/A.jpg" (new_user "a" Male));
           ("B", with_pic "uploads/B.jpg" (new_user "b" Male));
           ("C", with_pic "uploads/C.jpg" (new_user "c" Male));
           ("V", new_user "v" Male)]%string
          [].

Definition trio_store_after (now : Z) : store :=
  mkStore [("A", mkUser "a" 1216 (Some "uploads/A.jpg") Male [] 1);
           ("B", mkUser "b" 1200 (Some "uploads/B.jpg") Male [] 0);
           ("C", mkUser "c" 1184 (Some "uploads/C.jpg") Male [] 1);
           ("V", mkUser "v" 1200 None Male [now] 0)]%string
          [("V", [("A", "C")])]%string.

(** Thirty participants with photos, rated 1200, 1250, 1300, ..., and a
    voter. *)
Definition crowd : users_t :=
  map (fun n => (String (ascii_of_nat (65 + n)) EmptyString,
                 mkUser "pw"%string (1200 + 50 * Z.of_nat n) (Some "uploads/p.jpg"%string)
                        Male [] 0))
      (seq 0 30)
  ++ [("v"%string, new_user "pw" Male)].

(** Three participants of both genders, one without a photo, in no order. *)
Definition three_users : users_t :=
  [("b", mkUser "pw" 1200 None Female [] 0);
   ("c", mkUser "pw" 1400 (Some "uploads/c.jpg") Male [] 7);
   ("a", mkUser "pw" 1000 (Some "uploads/a.jpg") Female [] 2)]%string.

(** Four participants, two of them tied at 1200. *)
Definition tied_users : users_t :=
  [("y", mkUser "pw" 1200 None Male [] 0);
   ("z", mkUser "pw" 1300 None Male [] 0);
   ("x", mkUser "pw" 1200 None Male [] 0);
   ("w", mkUser "pw" 1100 None Male [] 0)]%string.

(** A voter with fifteen votes at the microseconds 1, ..., 15. *)
Definition busy_times : list Z := map Z.of_nat (seq 1 15).

Definition busy_store : store :=
  mkStore [("V"%string, mkUser "pw" 1200 None Male busy_times 0)] [].

(** A and B with photos, and a voter with fourteen votes at the
    microseconds 1, ..., 14. *)
Definition nearly_busy_store : store :=
  mkStore [("A", with_pic "uploads/A.jpg" (new_user "a" Male));
           ("B", with_pic "uploads/B.jpg" (new_user "b" Male));
           ("V", mkUser "v" 1200 None Male (map Z.of_nat (seq 1 14)) 0)]%string
          [].

(** A voter who has judged the only pair there is. *)
Definition done_store : store :=
  mkStore (users_file duel_store) [("V", [("A", "B")])]%string.

(** A voter with a single eligible participant. *)
Definition lonely_store : store :=
  mkStore [("A", with_pic "uploads/A.jpg" (new_user "a" Male));
           ("B", with_pic "uploads/B.jpg" (new_user "b" Female));
           ("V", new_user "v" Male)]%string
          [].

(** ** The candidate pairs as the specification words them

    A pair is a candidate when its sorted form is not in the voter's
    history and, once 30 photos are uploaded, its two ratings differ by at
    most 100.  [possible_pairs] is compared with this below. *)

Definition elo_of (users : users_t) (u : string) : Z :=
  match Dict.get users u with
  | Some r => elo r
  | None => 0%Z
  end.

Definition is_candidate (users : users_t) (tried : list pair_t) (p : pair_t)
    : bool :=
  negb (pair_in p tried)
  && (if (30 <=? uploaded_photos_count users)%nat
      then (Z.abs (elo_of users (fst p) - elo_of users (snd p)) <=? 100)%Z
      else true).

Definition candidates (users : users_t) (tried : list pair_t)
    (el : list string) : list pair_t :=
  filter (is_candidate users tried) (enumerate_pairs el).

(** ** Percentile bands (lines 68-80) *)

Definition Qltb (p q : Q) : bool := negb (Qle_bool q p).

Definition percentile_description (p : Q) : string :=
  if Qltb p 50 then
    "Room for improvement — the good thing is, things change fast."
  else if Qltb p 60 then "Above average — a solid base."
  else if Qltb p 70 then "Pretty good — people definitely notice."
  else if Qltb p 80 then "Strong presence — you stand out."
  else if Qltb p 90 then "Excellent — well above most peers."
  else "Elite tier — very few reach here.".

(** ** The statistics page (lines 290-324) *)

Inductive stats_outcome : Type :=
| StatsNeedPhoto                    (* "Stats are waiting for your photo" *)
| StatsProgress (played : Z)        (* "rated X / 6 times" *)
| StatsShown (rating : Z) (p : Q) (insight : string).

Definition stats_page (users : users_t) (user_email : string)
    : result stats_outcome :=
  me <- Dict.lookup users user_email ;;
  match pic me with
  | None => Ok StatsNeedPhoto
  | Some _ =>
      if (matches_played me <? MIN_MATCHES_FOR_STATS)%Z
      then Ok (StatsProgress (matches_played me))
      else
        let percentiles := compute_percentiles users in
        p <- Dict.lookup percentiles user_email ;;
        Ok (StatsShown (elo me) p (percentile_description p))
  end.

(** ** The upload page (lines 258-285) *)

Definition UPLOAD_DIR : string := "uploads".

(** [s.replace(old, new)] for one-character [old] and [new] *)
Fixpoint replace_char (old new : ascii) (s : string) : string :=
  match s with
  | EmptyString => EmptyString
  | String c r =>
      String (if Ascii.eqb c old then new else c) (replace_char old new r)
  end.

(** [s.endswith(suffix)] *)
Definition endswith (s suffix : string) : bool :=
  let n := String.length s in
  let m := String.length suffix in
  (m <=? n)%nat && (substring (n - m) m s =? suffix)%string.

(** [os.path.join(a, b)] of [posixpath] *)
Definition path_join (a b : string) : string :=
  if prefix "/" b then b
  else if (a =? EmptyString)%string || endswith a "/" then (a ++ b)%string
  else (a ++ "/" ++ b)%string.

(** line 279 *)
Definition upload_path (user_email : string) : string :=
  path_join UPLOAD_DIR (replace_char "@" "_" user_email ++ ".jpg")%string.

Inductive upload_outcome : Type :=
| Uploaded                 (* "Photo uploaded successfully." *)
| NoFileChosen             (* the uploader holds no file *)
| AlreadyUploaded          (* "Photo already uploaded." *)
| UploadRaised.            (* an exception of lines 278-280 ends the run *)

(** One run of the upload page.  [file] tells whether the uploader holds a
    file.  [saved] tells whether lines 278-280 complete: [Image.open] and
    [convert] raise on a file that is no image [PIL] can read, [img.save]
    raises on a path it cannot write, as it does for an e-mail that holds
    a [/] when [uploads] has no such subdirectory (line 26 creates
    [uploads] alone).  The exception ends the run before line 281, so
    that nothing is stored. *)
Definition upload_page (st : store) (user_email : string)
    (file saved : bool) : result (upload_outcome * store) :=
  let users := users_file st in
  me <- Dict.lookup users user_email ;;
  match pic me with
  | None =>
      if file then
        let path := upload_path user_email in
        if saved then
          let users := Dict.set users user_email (with_pic path me) in
          Ok (Uploaded, mkStore users (votes_file st))
        else Ok (UploadRaised, st)
      else Ok (NoFileChosen, st)
  | Some _ => Ok (AlreadyUploaded, st)
  end.

(** Does the character occur in the string? *)
Fixpoint has_char (c : ascii) (s : string) : bool :=
  match s with
  | EmptyString => false
  | String c' r => Ascii.eqb c' c || has_char c r
  end.

(** ** Registration and login (lines 109-153) *)

Inductive action_t : Type := Login | Register.

(** [st.session_state] *)
Record session : Type := mkSession {
  logged_in : bool;
  session_email : option string
}.

Inductive submit_outcome : Type :=
| NotNirmaEmail            (* "Only Nirma University emails allowed." *)
| AlreadyRegistered        (* "Email already registered." *)
| NoGender                 (* "Please select your gender." *)
| Registered               (* "Registered successfully. Please login." *)
| NotRegistered            (* "Email not registered." *)
| WrongPassword            (* "Incorrect password." *)
| LoggedIn.

Section Submit.

(** [hash_password], the hexadecimal SHA-256 digest of the password. *)
Variable hash_password : string -> string.

(** The body of [if st.button("Submit")], lines 126-153. *)
Definition submit (st : store) (ss : session) (action : action_t)
    (email pw : string) (gender : option gender_t)
    : submit_outcome * store * session :=
  let users := users_file st in
  if negb (endswith email "@nirmauni.ac.in") then (NotNirmaEmail, st, ss)
  else
    match action with
    | Register =>
        if Dict.mem users email then (AlreadyRegistered, st, ss)
        else
          match gender with
          | None => (NoGender, st, ss)
          | Some g =>
              let users :=
                Dict.set users email
                  (mkUser (hash_password pw) BASE_ELO None g [] 0) in
              (Registered, mkStore users (votes_file st), ss)
          end
    | Login =>
        match Dict.get users email with
        | None => (NotRegistered, st, ss)
        | Some u =>
            if negb (password u =? hash_password pw)%string
            then (WrongPassword, st, ss)
            else (LoggedIn, st, mkSession true (Some email))
        end
    end.

(** ** The application as a whole *)

(** What a user can make the script do in one run. *)
Inductive event : Type :=
| SubmitEv (action : action_t) (email pw : string)
           (gender : option gender_t)
| UploadEv (user_email : string) (file saved : bool)
| VoteEv (q : request).

(** The files after a run; a run that dies of an exception has written
    nothing.  The pages behind the login are run for any [user_email]
    here, which covers the runs of logged-in users. *)
Definition app_step (st : store) (ev : event) : store :=
  match ev with
  | SubmitEv action email pw g =>
      snd (fst (submit st (mkSession false None) action email pw g))
  | UploadEv u file saved =>
      match upload_page st u file saved with
      | Ok (_, st') => st'
      | KeyError _ => st
      end
  | VoteEv q => serve st q
  end.

Definition app_run (st : store) (evs : list event) : store :=
  fold_left app_step evs st.

End Submit.

(** lines 28-34: both files start as the empty object *)
Definition initial_store : store := mkStore [] [].

(** ** Measures of a store *)

Definition total_elo (users : users_t) : Z :=
  fold_right (fun kv s => (elo (snd kv) + s)%Z) 0%Z users.

Definition total_matches (users : users_t) : Z :=
  fold_right (fun kv s => (matches_played (snd kv) + s)%Z) 0%Z users.

(** The value [f] takes on the record of [k], 0 for a missing key, and
    the sum of such values over a list of keys. *)
Definition val_of (f : user -> Z) (users : users_t) (k : string) : Z :=
  match Dict.get users k with
  | Some r => f r
  | None => 0%Z
  end.

Definition sum_over (g : string -> Z) (ks : list string) : Z :=
  fold_right (fun k s => (g k + s)%Z) 0%Z ks.

(** ** What an accepted vote is, between two states of the files

    [st'] is [st] after [v] has voted at [now] on the pair [a], [b] whose
    records in [st] are [ua] and [ub], [me] being the record of [v]. *)
Definition vote_recorded (st st' : store) (v : string) (now : Z)
    (left : bool) (a b : string) (me ua ub : user) : Prop :=
  let r := update_elo (IZR (elo ua)) (IZR (elo ub))
                      (if left then 1%R else 0%R) in
  Dict.get (users_file st) v = Some me
  /\ Dict.get (users_file st) a = Some ua
  /\ Dict.get (users_file st) b = Some ub
  /\ a <> b /\ a <> v /\ b <> v
  /\ pic_truthy (pic ua) = true /\ pic_truthy (pic ub) = true
  /\ gender ua = gender me /\ gender ub = gender me
  /\ limit_reached (prune_vote_times now (vote_times me)) = false
  /\ sorted2 a b = (a, b)
  /\ ~ In (a, b) (history st v)
  /\ Dict.get (users_file st') a
     = Some (mkUser (password ua) (fst r) (pic ua) (gender ua)
                    (vote_times ua) (matches_played ua + 1))
  /\ Dict.get (users_file st') b
     = Some (mkUser (password ub) (snd r) (pic ub) (gender ub)
                    (vote_times ub) (matches_played ub + 1))
  /\ Dict.get (users_file st') v
     = Some (set_vote_times (record_vote now (vote_times me)) me)
  /\ (forall u, u <> a -> u <> b -> u <> v ->
                Dict.get (users_file st') u = Dict.get (users_file st) u)
  /\ Dict.keys (users_file st') = Dict.keys (users_file st)
  /\ votes_file st'
     = Dict.set (ensure_history (votes_file st) v) v
                (history st v ++ [(a, b)]).

(** ** Well-formed stores

    What the files hold at any moment of the life of the application, as
    proved below. *)

Definition user_ok (u : string) (r : user) : Prop :=
  endswith u "@nirmauni.ac.in" = true
  /\ (pic r = None \/ pic_truthy (pic r) = true)
  /\ (0 <= matches_played r)%Z
  /\ (List.length (vote_times r) <= 15)%nat.

Definition pair_ok (users : users_t) (v : string) (p : pair_t) : Prop :=
  sorted2 (fst p) (snd p) = p
  /\ fst p <> snd p /\ fst p <> v /\ snd p <> v
  /\ exists me ra rb,
       Dict.get users v = Some me
       /\ Dict.get users (fst p) = Some ra
       /\ Dict.get users (snd p) = Some rb
       /\ pic_truthy (pic ra) = true /\ pic_truthy (pic rb) = true
       /\ gender ra = gender me /\ gender rb = gender me.

Definition store_ok (st : store) : Prop :=
  Dict.wf (users_file st) = true
  /\ Dict.wf (votes_file st) = true
  /\ (forall u r, Dict.get (users_file st) u = Some r -> user_ok u r)
  /\ (forall v, In v (Dict.keys (votes_file st)) ->
                In v (Dict.keys (users_file st)))
  /\ (forall v, NoDup (history st v))
  /\ (forall v p, In p (history st v) -> pair_ok (users_file st) v p)
  /\ (2 * Z.abs (total_elo (users_file st)
                 - BASE_ELO * Z.of_nat (List.length (users_file st)))
      <= total_matches (users_file st))%Z.

(** * Properties *)

Unset Implicit Arguments.

(** ** Rating engine *)

Section RatingEngineFacts.

Local Open Scope R_scope.

Lemma floorR_spec (x : R) : IZR (floorR x) <= x < IZR (floorR x) + 1.
Proof.
  unfold floorR. rewrite minus_IZR.
  destruct (archimed x) as [Hgt Hle]. lra.
Qed.

Lemma floorR_unique (x : R) (n : Z) : IZR n <= x < IZR n + 1 -> floorR x = n.
Proof.
  intros [Hlo Hhi]. destruct (floorR_spec x) as [Flo Fhi].
  assert (H1 : (n < floorR x + 1)%Z).
  { apply lt_IZR. rewrite plus_IZR. simpl. lra. }
  assert (H2 : (floorR x < n + 1)%Z).
  { apply lt_IZR. rewrite plus_IZR. simpl. lra. }
  lia.
Qed.

Lemma floorR_IZR (n : Z) : floorR (IZR n) = n.
Proof. apply floorR_unique. lra. Qed.

Lemma py_round_IZR (n : Z) : py_round (IZR n) = n.
Proof.
  unfold py_round. rewrite floorR_IZR.
  destruct (Rlt_dec (IZR n - IZR n) (1 / 2)) as [_ | Hn]; [reflexivity | lra].
Qed.

(** [round] moves its argument by at most one half. *)
Lemma py_round_nearest (x : R) : Rabs (IZR (py_round x) - x) <= 1 / 2.
Proof.
  unfold py_round. destruct (floorR_spec x) as [Flo Fhi].
  set (f := floorR x) in *.
  destruct (Rlt_dec (x - IZR f) (1 / 2)) as [Hlt | Hge].
  - apply Rabs_le. lra.
  - destruct (Rlt_dec (1 / 2) (x - IZR f)) as [Hgt | Hle].
    + rewrite plus_IZR. apply Rabs_le. simpl. lra.
    + destruct (Z.even f).
      * apply Rabs_le. lra.
      * rewrite plus_IZR. apply Rabs_le. simpl. lra.
Qed.




Lemma expected_score_equal (r : R) : expected_score r r = 1 / 2.
Proof.
  unfold expected_score.
  replace ((r - r) / 400) with 0 by lra.
  rewrite Rpower_O by lra. lra.
Qed.


(** Two equally rated players, the first one winning. *)
Lemma update_elo_equal_win (n : Z) :
  update_elo (IZR n) (IZR n) 1 = ((n + 16)%Z, (n - 16)%Z).
Proof.
  unfold update_elo. rewrite expected_score_equal. unfold K_FACTOR.
  replace (IZR n + 32 * (1 - 1 / 2)) with (IZR (n + 16))
    by (rewrite plus_IZR; simpl; lra).
  replace (IZR n + 32 * (1 - 1 - (1 - 1 / 2))) with (IZR (n - 16))
    by (rewrite minus_IZR; simpl; lra).
  now rewrite !py_round_IZR.
Qed.

Lemma update_elo_equal_loss (n : Z) :
  update_elo (IZR n) (IZR n) 0 = ((n - 16)%Z, (n + 16)%Z).
Proof.
  unfold update_elo. rewrite expected_score_equal. unfold K_FACTOR.
  replace (IZR n + 32 * (0 - 1 / 2)) with (IZR (n - 16))
    by (rewrite minus_IZR; simpl; lra).
  replace (IZR n + 32 * (1 - 0 - (1 - 1 / 2))) with (IZR (n + 16))
    by (rewrite plus_IZR; simpl; lra).
  now rewrite !py_round_IZR.
Qed.


(** The two real-valued new ratings add up to the old sum, whatever the
    outcome. *)
Lemma update_elo_zero_sum_exact (ra rb sa : R) :
  let ea := expected_score ra rb in
  (ra + IZR K_FACTOR * (sa - ea)) + (rb + IZR K_FACTOR * ((1 - sa) - (1 - ea)))
  = ra + rb.
Proof. intros ea. ring. Qed.



(** For the integer ratings the store holds, the two sums differ by -1, 0
    or 1. *)
Lemma update_elo_zero_sum_Z (ra rb : Z) (sa : R) :
  let r := update_elo (IZR ra) (IZR rb) sa in
  (Z.abs (fst r + snd r - (ra + rb)) <= 1)%Z.
Proof.
  intros r. subst r. unfold update_elo. cbn [fst snd].
  set (x := IZR ra + IZR K_FACTOR * (sa - expected_score (IZR ra) (IZR rb))).
  set (y := IZR rb
            + IZR K_FACTOR * (1 - sa - (1 - expected_score (IZR ra) (IZR rb)))).
  assert (Hxy : x + y = IZR (ra + rb)) by (subst x y; rewrite plus_IZR; ring).
  pose proof (py_round_nearest x) as Hx. pose proof (py_round_nearest y) as Hy.
  apply le_IZR. rewrite abs_IZR, minus_IZR, plus_IZR, <- Hxy.
  replace (IZR (py_round x) + IZR (py_round y) - (x + y))
    with ((IZR (py_round x) - x) + (IZR (py_round y) - y)) by ring.
  eapply Rle_trans; [apply Rabs_triang |]. lra.
Qed.

End RatingEngineFacts.

(** ** Dictionaries *)

Section DictFacts.
Context {V : Type}.
Implicit Types (d : Dict.t V) (k : string) (v : V).

Lemma get_set_same d k v : Dict.get (Dict.set d k v) k = Some v.
Proof.
  induction d as [| [k' v'] r IH]; simpl.
  - now rewrite String.eqb_refl.
  - destruct (String.eqb_spec k' k) as [-> | Hne]; simpl.
    + now rewrite String.eqb_refl.
    + apply String.eqb_neq in Hne. now rewrite Hne.
Qed.

Lemma get_set_other d k k' v :
  k <> k' -> Dict.get (Dict.set d k v) k' = Dict.get d k'.
Proof.
  intros Hne. induction d as [| [k0 v0] r IH]; simpl.
  - apply String.eqb_neq in Hne. now rewrite Hne.
  - destruct (String.eqb_spec k0 k) as [-> | Hne0]; simpl.
    + apply String.eqb_neq in Hne. now rewrite Hne.
    + now rewrite IH.
Qed.

Lemma keys_set_present d k v v0 :
  Dict.get d k = Some v0 -> Dict.keys (Dict.set d k v) = Dict.keys d.
Proof.
  unfold Dict.keys. induction d as [| [k0 w] r IH]; simpl; [discriminate |].
  destruct (String.eqb_spec k0 k) as [-> | Hne]; simpl.
  - reflexivity.
  - intros H. now rewrite IH.
Qed.

Lemma get_in_keys d k : In k (Dict.keys d) -> exists v, Dict.get d k = Some v.
Proof.
  unfold Dict.keys. induction d as [| [k0 w] r IH]; simpl; [tauto |].
  intros [-> | Hin].
  - rewrite String.eqb_refl. now exists w.
  - destruct (k0 =? k)%string; [now exists w | now apply IH].
Qed.

Lemma get_some_in d k v : Dict.get d k = Some v -> In (k, v) d.
Proof.
  induction d as [| [k0 w] r IH]; simpl; [discriminate |].
  destruct (String.eqb_spec k0 k) as [-> | Hne].
  - intros [= ->]. now left.
  - intros H. right. now apply IH.
Qed.

Lemma get_none_not_in d k : Dict.get d k = None -> ~ In k (Dict.keys d).
Proof.
  intros Hn Hin. apply get_in_keys in Hin. destruct Hin as [v Hv]. congruence.
Qed.

Lemma wf_NoDup d : Dict.wf d = true <-> NoDup (Dict.keys d).
Proof.
  unfold Dict.keys. induction d as [| [k0 w] r IH]; simpl.
  - split; [constructor | reflexivity].
  - rewrite andb_true_iff, negb_true_iff, IH. unfold Dict.mem. split.
    + intros [Hm Hnd]. constructor; [| assumption].
      destruct (Dict.get r k0) eqn:E; [discriminate |].
      now apply get_none_not_in.
    + intros Hnd. inversion Hnd as [| ? ? Hni Hnd']; subst. split; [| assumption].
      destruct (Dict.get r k0) eqn:E; [| reflexivity].
      exfalso. apply Hni. apply get_some_in in E.
      now apply (in_map fst) in E.
Qed.

(** With distinct keys [get] finds every entry. *)
Lemma in_wf_get d k v : Dict.wf d = true -> In (k, v) d -> Dict.get d k = Some v.
Proof.
  induction d as [| [k0 w] r IH]; simpl; [tauto |].
  rewrite andb_true_iff, negb_true_iff. unfold Dict.mem.
  intros [Hm Hwf] [[= -> ->] | Hin].
  - now rewrite String.eqb_refl.
  - destruct (String.eqb_spec k0 k) as [-> | Hne]; [| now apply IH].
    rewrite (IH Hwf Hin) in Hm. discriminate.
Qed.

Lemma wf_set d k v : Dict.wf d = true -> Dict.wf (Dict.set d k v) = true.
Proof.
  rewrite !wf_NoDup. unfold Dict.keys.
  induction d as [| [k0 w] r IH]; simpl.
  - intros _. constructor; [tauto | constructor].
  - intros Hnd. inversion Hnd as [| ? ? Hni Hnd']; subst.
    destruct (String.eqb_spec k0 k) as [-> | Hne]; simpl.
    + now constructor.
    + constructor; [| now apply IH].
      intros Hin. apply get_in_keys in Hin. destruct Hin as [x Hx].
      rewrite get_set_other in Hx by congruence.
      apply get_some_in in Hx. apply Hni. now apply (in_map fst) in Hx.
Qed.

Lemma lookup_ok d k v : Dict.lookup d k = Ok v <-> Dict.get d k = Some v.
Proof.
  unfold Dict.lookup. destruct (Dict.get d k); split; congruence.
Qed.

Lemma modify_ok d k (f : V -> V) v :
  Dict.get d k = Some v -> Dict.modify d k f = Ok (Dict.set d k (f v)).
Proof. intros H. unfold Dict.modify, Dict.lookup. now rewrite H. Qed.

Lemma modify_inv d k (f : V -> V) d' :
  Dict.modify d k f = Ok d' ->
  exists v, Dict.get d k = Some v /\ d' = Dict.set d k (f v).
Proof.
  unfold Dict.modify, Dict.lookup. destruct (Dict.get d k) as [v |]; simpl.
  - intros [= <-]. now exists v.
  - discriminate.
Qed.
End DictFacts.


(** ** Matchmaker *)

Section MatchmakerFacts.

Local Open Scope string_scope.
Local Open Scope list_scope.

Lemma ltb_asym (x y : string) : (x <? y) = true -> (y <? x) = false.
Proof.
  unfold String.ltb. rewrite (String.compare_antisym y x).
  destruct (String.compare x y); simpl; congruence.
Qed.



(** A sorted pair is its own sorted form. *)
Lemma sorted2_idem (x y : string) :
  sorted2 (fst (sorted2 x y)) (snd (sorted2 x y)) = sorted2 x y.
Proof.
  unfold sorted2. destruct (y <? x) eqn:Eyx; simpl.
  - now rewrite (ltb_asym _ _ Eyx).
  - now rewrite Eyx.
Qed.

Lemma sorted2_members (x y : string) :
  (fst (sorted2 x y) = x /\ snd (sorted2 x y) = y) \/
  (fst (sorted2 x y) = y /\ snd (sorted2 x y) = x).
Proof. unfold sorted2. destruct (y <? x); simpl; tauto. Qed.

Lemma pair_eqb_eq (p q : pair_t) : pair_eqb p q = true <-> p = q.
Proof.
  destruct p as [a b], q as [c d]. unfold pair_eqb. simpl.
  rewrite andb_true_iff, !String.eqb_eq. split.
  - intros [-> ->]. reflexivity.
  - intros [= -> ->]. tauto.
Qed.

Lemma pair_in_iff (p : pair_t) (tried : list pair_t) :
  pair_in p tried = true <-> In p tried.
Proof.
  unfold pair_in. rewrite existsb_exists. split.
  - intros [q [Hin Heq]]. apply pair_eqb_eq in Heq. now subst.
  - intros Hin. exists p. split; [assumption | now apply pair_eqb_eq].
Qed.

Lemma pair_in_false (p : pair_t) (tried : list pair_t) :
  pair_in p tried = false <-> ~ In p tried.
Proof.
  rewrite <- pair_in_iff. destruct (pair_in p tried); split; congruence.
Qed.

(** Every enumerated pair is the sorted form of two entries of the list,
    the first one standing before the second. *)
Lemma enumerate_pairs_In (el : list string) (p : pair_t) :
  In p (enumerate_pairs el) <->
  exists l1 x l2 y l3, el = l1 ++ x :: l2 ++ y :: l3 /\ p = sorted2 x y.
Proof.
  induction el as [| x r IH]; simpl.
  - split; [tauto |]. intros (l1 & a & l2 & b & l3 & H & _).
    destruct l1; discriminate.
  - rewrite in_app_iff, in_map_iff, IH. split.
    + intros [[y [Hp Hin]] | (l1 & a & l2 & b & l3 & -> & ->)].
      * apply in_split in Hin. destruct Hin as (l2 & l3 & ->).
        exists [], x, l2, y, l3. now split.
      * exists (x :: l1), a, l2, b, l3. now split.
    + intros (l1 & a & l2 & b & l3 & H & ->). destruct l1 as [| z l1].
      * simpl in H. injection H as -> ->. left. exists b. split; [reflexivity |].
        apply in_or_app. right. now left.
      * simpl in H. injection H as -> ->. right.
        exists l1, a, l2, b, l3. now split.
Qed.

Lemma enumerate_pairs_members (el : list string) (p : pair_t) :
  In p (enumerate_pairs el) -> In (fst p) el /\ In (snd p) el.
Proof.
  rewrite enumerate_pairs_In. intros (l1 & x & l2 & y & l3 & -> & ->).
  assert (Hx : In x (l1 ++ x :: l2 ++ y :: l3)).
  { apply in_or_app. right. now left. }
  assert (Hy : In y (l1 ++ x :: l2 ++ y :: l3)).
  { apply in_or_app. right. right. apply in_or_app. right. now left. }
  destruct (sorted2_members x y) as [[-> ->] | [-> ->]]; tauto.
Qed.

Lemma enumerate_pairs_distinct (el : list string) (p : pair_t) :
  NoDup el -> In p (enumerate_pairs el) -> fst p <> snd p.
Proof.
  intros Hnd. rewrite enumerate_pairs_In.
  intros (l1 & x & l2 & y & l3 & -> & ->).
  apply NoDup_remove_2 in Hnd.
  assert (Hxy : x <> y).
  { intros ->. apply Hnd. apply in_or_app. right.
    apply in_or_app. right. now left. }
  destruct (sorted2_members x y) as [[-> ->] | [-> ->]]; congruence.
Qed.

Lemma enumerate_pairs_sorted (el : list string) (p : pair_t) :
  In p (enumerate_pairs el) -> sorted2 (fst p) (snd p) = p.
Proof.
  rewrite enumerate_pairs_In. intros (l1 & x & l2 & y & l3 & _ & ->).
  apply sorted2_idem.
Qed.

Lemma eligible_In (users : users_t) (v : string) (g : gender_t) (u : string) :
  In u (eligible users v g) <->
  exists r, In (u, r) users /\ pic_truthy (pic r) = true /\ u <> v /\ gender r = g.
Proof.
  unfold eligible. rewrite in_map_iff. split.
  - intros [[u' r] [Hu Hin]]. simpl in Hu. subst u'.
    apply filter_In in Hin. destruct Hin as [Hin Hel].
    unfold is_eligible in Hel. simpl in Hel.
    rewrite !andb_true_iff, negb_true_iff, String.eqb_neq in Hel.
    destruct Hel as [[Hp Hne] Hg]. exists r. repeat split; try assumption.
    destruct (gender r), g; simpl in Hg; congruence.
  - intros [r (Hin & Hp & Hne & Hg)]. exists (u, r). split; [reflexivity |].
    apply filter_In. split; [assumption |].
    unfold is_eligible. simpl. rewrite Hp. apply String.eqb_neq in Hne.
    rewrite Hne. subst g. now destruct (gender r).
Qed.

Lemma eligible_keys (users : users_t) (v : string) (g : gender_t) (u : string) :
  In u (eligible users v g) -> In u (Dict.keys users).
Proof.
  rewrite eligible_In. intros [r [Hin _]]. now apply (in_map fst) in Hin.
Qed.

Lemma NoDup_map_filter (A B : Type) (f : A -> B) (q : A -> bool) (l : list A) :
  NoDup (map f l) -> NoDup (map f (filter q l)).
Proof.
  induction l as [| x r IH]; simpl; [trivial |].
  intros Hnd. inversion Hnd as [| ? ? Hni Hnd']; subst.
  destruct (q x); simpl; [| now apply IH].
  constructor; [| now apply IH].
  intros Hin. apply Hni. apply in_map_iff in Hin.
  destruct Hin as [y [Hy Hin]]. apply filter_In in Hin.
  apply in_map_iff. exists y. tauto.
Qed.

Lemma eligible_NoDup (users : users_t) (v : string) (g : gender_t) :
  Dict.wf users = true -> NoDup (eligible users v g).
Proof.
  rewrite wf_NoDup. unfold eligible, Dict.keys. apply NoDup_map_filter.
Qed.

Lemma filter_pairs_pure (keep : pair_t -> result bool) (q : pair_t -> bool)
    (l : list pair_t) :
  (forall p, In p l -> keep p = Ok (q p)) ->
  filter_pairs keep l = Ok (filter q l).
Proof.
  induction l as [| p r IH]; simpl; [reflexivity |].
  intros H. rewrite (H p) by now left. simpl.
  rewrite IH by (intros; apply H; now right). simpl.
  now destruct (q p).
Qed.

Lemma elo_of_get (users : users_t) (u : string) (r : user) :
  Dict.get users u = Some r -> elo_of users u = elo r.
Proof. unfold elo_of. now intros ->. Qed.

(** On pairs of keys of [users] the loop body decides [is_candidate]
    and raises nothing. *)
Lemma keep_pair_candidate (users : users_t) (tried : list pair_t) (p : pair_t) :
  In (fst p) (Dict.keys users) -> In (snd p) (Dict.keys users) ->
  keep_pair users tried (use_elo_matching users) p
  = Ok (is_candidate users tried p).
Proof.
  intros Ha Hb. apply get_in_keys in Ha, Hb.
  destruct Ha as [ua Ha], Hb as [ub Hb].
  unfold keep_pair, is_candidate, use_elo_matching.
  destruct (pair_in p tried); cbn [negb andb]; [reflexivity |].
  destruct (30 <=? uploaded_photos_count users)%nat; [| reflexivity].
  unfold Dict.lookup. rewrite Ha, Hb. cbn [bind].
  now rewrite (elo_of_get _ _ _ Ha), (elo_of_get _ _ _ Hb).
Qed.

(** The list the loops build is the list of the candidate pairs, in the
    order of the enumeration; building it raises nothing. *)
Lemma possible_pairs_candidates (users : users_t) (tried : list pair_t)
    (v : string) (g : gender_t) :
  possible_pairs users tried (eligible users v g)
  = Ok (candidates users tried (eligible users v g)).
Proof.
  unfold possible_pairs, candidates. apply filter_pairs_pure.
  intros p Hin. apply enumerate_pairs_members in Hin. destruct Hin as [Ha Hb].
  apply keep_pair_candidate; eapply eligible_keys; eassumption.
Qed.

Lemma lookup_ensure_history (votes : votes_t) (v : string) :
  Dict.lookup (ensure_history votes v) v = Ok (tried_of votes v).
Proof.
  unfold ensure_history, Dict.mem, Dict.lookup, tried_of.
  destruct (Dict.get votes v) eqn:E.
  - now rewrite E.
  - now rewrite get_set_same.
Qed.

Lemma get_ensure_history (votes : votes_t) (v : string) :
  Dict.get (ensure_history votes v) v = Some (tried_of votes v).
Proof. apply lookup_ok, lookup_ensure_history. Qed.

Lemma get_ensure_history_other (votes : votes_t) (v w : string) :
  v <> w -> Dict.get (ensure_history votes v) w = Dict.get votes w.
Proof.
  intros Hne. unfold ensure_history. destruct (Dict.mem votes v); [reflexivity |].
  now apply get_set_other.
Qed.

Lemma tried_of_ensure_history (votes : votes_t) (v w : string) :
  tried_of (ensure_history votes v) w = tried_of votes w.
Proof.
  unfold tried_of at 1. destruct (String.eqb_spec v w) as [<- | Hne].
  - now rewrite get_ensure_history.
  - now rewrite get_ensure_history_other.
Qed.

Lemma random_choice_In (A : Type) (rnd : nat) (p : A) (r : list A) :
  In (random_choice rnd p r) (p :: r).
Proof.
  unfold random_choice. apply nth_In. cbn [List.length].
  apply Nat.mod_upper_bound. discriminate.
Qed.

(** Every entry of a non-empty list is the choice of some draw. *)
Lemma random_choice_onto (A : Type) (p : A) (r : list A) (x : A) :
  In x (p :: r) -> exists rnd, random_choice rnd p r = x.
Proof.
  intros Hin. apply (In_nth _ _ p) in Hin. destruct Hin as [n [Hn Hx]].
  exists n. unfold random_choice. cbn [List.length] in Hn.
  now rewrite Nat.mod_small by assumption.
Qed.

(** [select_pair] in closed form: it raises nothing, and it answers from
    the candidate pairs of the eligible participants. *)
Lemma select_pair_closed (users : users_t) (votes : votes_t) (v : string)
    (g : gender_t) (rnd : nat) :
  select_pair users votes v g rnd
  = Ok (if (List.length (eligible users v g) <? 2)%nat
        then (NotEnoughEligible, votes)
        else match candidates users (tried_of votes v) (eligible users v g) with
             | [] => (NoPairLeft, ensure_history votes v)
             | p :: r => (Pair (fst (random_choice rnd p r))
                               (snd (random_choice rnd p r)),
                          ensure_history votes v)
             end).
Proof.
  unfold select_pair.
  destruct (List.length (eligible users v g) <? 2)%nat; [reflexivity |].
  rewrite lookup_ensure_history. simpl.
  rewrite possible_pairs_candidates. simpl.
  now destruct (candidates users (tried_of votes v) (eligible users v g)).
Qed.

(** A returned pair is one of the candidate pairs. *)
Lemma select_pair_candidate (users : users_t) (votes votes' : votes_t)
    (v : string) (g : gender_t) (rnd : nat) (a b : string) :
  select_pair users votes v g rnd = Ok (Pair a b, votes') ->
  In (a, b) (candidates users (tried_of votes v) (eligible users v g))
  /\ votes' = ensure_history votes v.
Proof.
  rewrite select_pair_closed.
  destruct (List.length (eligible users v g) <? 2)%nat; [discriminate |].
  destruct (candidates users (tried_of votes v) (eligible users v g))
    as [| p r] eqn:E; [discriminate |].
  intros [= <- <- <-]. split; [| reflexivity].
  rewrite <- surjective_pairing. apply random_choice_In.
Qed.

Lemma candidates_In (users : users_t) (tried : list pair_t) (el : list string)
    (p : pair_t) :
  In p (candidates users tried el) <->
  In p (enumerate_pairs el) /\ ~ In p tried /\
  ((30 <= uploaded_photos_count users)%nat ->
   (Z.abs (elo_of users (fst p) - elo_of users (snd p)) <= 100)%Z).
Proof.
  unfold candidates, is_candidate. rewrite filter_In, andb_true_iff, negb_true_iff.
  rewrite pair_in_false.
  destruct (Nat.leb_spec 30 (uploaded_photos_count users)) as [Hge | Hlt].
  - rewrite Z.leb_le. tauto.
  - split; [intros (H1 & H2 & _) | intros (H1 & H2 & _)];
      repeat split; try assumption; intros; lia.
Qed.

Lemma enumerate_pairs_two (el : list string) (p : pair_t) :
  In p (enumerate_pairs el) -> (2 <= List.length el)%nat.
Proof.
  rewrite enumerate_pairs_In. intros (l1 & x & l2 & y & l3 & -> & _).
  rewrite !length_app. simpl. rewrite length_app. simpl. lia.
Qed.

(** Every candidate pair is returned for some draw. *)
Lemma select_pair_reaches (users : users_t) (votes : votes_t) (v : string)
    (g : gender_t) (p : pair_t) :
  In p (candidates users (tried_of votes v) (eligible users v g)) ->
  exists rnd,
    select_pair users votes v g rnd
    = Ok (Pair (fst p) (snd p), ensure_history votes v).
Proof.
  intros Hin. assert (H2 : (2 <= List.length (eligible users v g))%nat).
  { apply candidates_In in Hin. eapply enumerate_pairs_two. apply Hin. }
  apply Nat.ltb_ge in H2.
  destruct (candidates users (tried_of votes v) (eligible users v g))
    as [| q r] eqn:E; [contradiction |].
  destruct (random_choice_onto _ q r p Hin) as [rnd Hr].
  exists rnd. rewrite select_pair_closed, H2, E, Hr. reflexivity.
Qed.

(** Changing the timestamps of one record changes nothing for the
    matchmaker. *)
Lemma filter_set_agree (f : string * user -> bool) (d : users_t) (k : string)
    (x x' : user) :
  Dict.get d k = Some x -> f (k, x') = f (k, x) ->
  map fst (filter f (Dict.set d k x')) = map fst (filter f d).
Proof.
  intros Hget Hf. induction d as [| [k0 w] r IH]; simpl in *; [discriminate |].
  destruct (String.eqb_spec k0 k) as [-> | Hne].
  - injection Hget as ->. simpl. rewrite Hf. now destruct (f (k, x)).
  - simpl. destruct (f (k0, w)); simpl; now rewrite IH.
Qed.

Lemma eligible_set_vote_times (users : users_t) (v : string) (me : user)
    (ts : list Z) (w : string) (g : gender_t) :
  Dict.get users v = Some me ->
  eligible (Dict.set users v (set_vote_times ts me)) w g = eligible users w g.
Proof.
  intros Hget. unfold eligible. now apply filter_set_agree with (x := me).
Qed.

Lemma uploaded_photos_count_set_vote_times (users : users_t) (v : string)
    (me : user) (ts : list Z) :
  Dict.get users v = Some me ->
  uploaded_photos_count (Dict.set users v (set_vote_times ts me))
  = uploaded_photos_count users.
Proof.
  intros Hget. unfold uploaded_photos_count.
  rewrite <- (length_map fst), <- (length_map fst (filter _ users)).
  f_equal. now apply filter_set_agree with (x := me).
Qed.

Lemma elo_of_set_vote_times (users : users_t) (v : string) (me : user)
    (ts : list Z) (u : string) :
  Dict.get users v = Some me ->
  elo_of (Dict.set users v (set_vote_times ts me)) u = elo_of users u.
Proof.
  intros Hget. unfold elo_of. destruct (String.eqb_spec v u) as [<- | Hne].
  - now rewrite get_set_same, Hget.
  - now rewrite get_set_other.
Qed.

Lemma candidates_set_vote_times (users : users_t) (v : string) (me : user)
    (ts : list Z) (tried : list pair_t) (el : list string) :
  Dict.get users v = Some me ->
  candidates (Dict.set users v (set_vote_times ts me)) tried el
  = candidates users tried el.
Proof.
  intros Hget. unfold candidates. apply filter_ext. intros p.
  unfold is_candidate.
  now rewrite (uploaded_photos_count_set_vote_times _ _ _ ts Hget),
              !(elo_of_set_vote_times _ _ _ ts _ Hget).
Qed.

Lemma select_pair_set_vote_times (users : users_t) (votes : votes_t)
    (v : string) (me : user) (ts : list Z) (w : string) (g : gender_t)
    (rnd : nat) :
  Dict.get users v = Some me ->
  select_pair (Dict.set users v (set_vote_times ts me)) votes w g rnd
  = select_pair users votes w g rnd.
Proof.
  intros Hget. rewrite !select_pair_closed.
  now rewrite (eligible_set_vote_times _ _ _ ts _ _ Hget),
              (candidates_set_vote_times _ _ _ ts _ _ Hget).
Qed.

End MatchmakerFacts.

(** ** The voting page *)

Section PageFacts.

(** What a button does to the two dicts when the three participants are
    known and distinct. *)
Lemma cast_vote_effect (users : users_t) (votes : votes_t) (v : string)
    (now : Z) (a b : string) (sa : R) (ua ub me : user) (h : list pair_t) :
  Dict.get users a = Some ua -> Dict.get users b = Some ub ->
  Dict.get users v = Some me -> Dict.get votes v = Some h ->
  a <> b -> a <> v -> b <> v ->
  let r := update_elo (IZR (elo ua)) (IZR (elo ub)) sa in
  exists users',
    cast_vote users votes v now a b sa
    = Ok (mkStore users' (Dict.set votes v (h ++ [sorted2 a b])))
    /\ Dict.get users' a = Some (incr_matches_played (set_elo (fst r) ua))
    /\ Dict.get users' b = Some (incr_matches_played (set_elo (snd r) ub))
    /\ Dict.get users' v = Some (append_vote_time now me)
    /\ (forall u, u <> a -> u <> b -> u <> v ->
                  Dict.get users' u = Dict.get users u)
    /\ Dict.keys users' = Dict.keys users.
Proof.
  intros Ha Hb Hv Hh Hab Hav Hbv r.
  set (U1 := Dict.set users a (set_elo (fst r) ua)).
  set (U2 := Dict.set U1 b (set_elo (snd r) ub)).
  set (U3 := Dict.set U2 a (incr_matches_played (set_elo (fst r) ua))).
  set (U4 := Dict.set U3 b (incr_matches_played (set_elo (snd r) ub))).
  set (U5 := Dict.set U4 v (append_vote_time now me)).
  assert (G1a : Dict.get U1 a = Some (set_elo (fst r) ua))
    by apply get_set_same.
  assert (G1b : Dict.get U1 b = Some ub)
    by (unfold U1; now rewrite get_set_other).
  assert (G2a : Dict.get U2 a = Some (set_elo (fst r) ua))
    by (unfold U2; rewrite get_set_other; [assumption | congruence]).
  assert (G2b : Dict.get U2 b = Some (set_elo (snd r) ub))
    by apply get_set_same.
  assert (G3b : Dict.get U3 b = Some (set_elo (snd r) ub))
    by (unfold U3; now rewrite get_set_other).
  assert (G4v : Dict.get U4 v = Some me).
  { unfold U4, U3, U2, U1. now rewrite !get_set_other. }
  exists U5. split; [| split; [| split; [| split; [| split]]]].
  - unfold cast_vote, Dict.lookup. rewrite Ha, Hb. cbn [bind]. fold r.
    rewrite (modify_ok _ _ _ _ Ha). cbn [bind]. fold U1.
    rewrite (modify_ok _ _ _ _ G1b). cbn [bind]. fold U2.
    rewrite (modify_ok _ _ _ _ G2a). cbn [bind]. fold U3.
    rewrite (modify_ok _ _ _ _ G3b). cbn [bind]. fold U4.
    rewrite (modify_ok _ _ _ _ Hh). cbn [bind].
    rewrite (modify_ok _ _ _ _ G4v). cbn [bind]. reflexivity.
  - unfold U5, U4, U3. rewrite !get_set_other by congruence.
    apply get_set_same.
  - unfold U5, U4. rewrite get_set_other by congruence. apply get_set_same.
  - apply get_set_same.
  - intros u Hua Hub Huv. unfold U5, U4, U3, U2, U1.
    now rewrite !get_set_other by congruence.
  - unfold U5. rewrite (keys_set_present _ _ _ _ G4v).
    unfold U4. rewrite (keys_set_present _ _ _ _ G3b).
    unfold U3. rewrite (keys_set_present _ _ _ _ G2a).
    unfold U2. rewrite (keys_set_present _ _ _ _ G1b).
    unfold U1. now rewrite (keys_set_present _ _ _ _ Ha).
Qed.

(** Whenever a button completes, the history it saves is the old one with
    the sorted pair at its end. *)
Lemma cast_vote_votes (users : users_t) (votes : votes_t) (v : string)
    (now : Z) (a b : string) (sa : R) (st' : store) :
  cast_vote users votes v now a b sa = Ok st' ->
  exists h, Dict.get votes v = Some h
            /\ votes_file st' = Dict.set votes v (h ++ [sorted2 a b]).
Proof.
  unfold cast_vote. intros H.
  destruct (Dict.lookup users a) as [ua |]; cbn [bind] in H; [| discriminate].
  destruct (Dict.lookup users b) as [ub |]; cbn [bind] in H; [| discriminate].
  destruct (Dict.modify users a _) as [U1 |]; cbn [bind] in H; [| discriminate].
  destruct (Dict.modify U1 b _) as [U2 |]; cbn [bind] in H; [| discriminate].
  destruct (Dict.modify U2 a _) as [U3 |]; cbn [bind] in H; [| discriminate].
  destruct (Dict.modify U3 b _) as [U4 |]; cbn [bind] in H; [| discriminate].
  destruct (Dict.modify votes v _) as [V1 |] eqn:EV; cbn [bind] in H;
    [| discriminate].
  destruct (Dict.modify U4 v _) as [U5 |]; cbn [bind] in H; [| discriminate].
  injection H as <-. apply modify_inv in EV. destruct EV as [h [Hh ->]].
  exists h. now split.
Qed.

(** The page in closed form for a logged-in user: the matchmaker may be
    read on the stored records. *)
Lemma vote_page_closed (st : store) (v : string) (now : Z) (rnd : nat)
    (left right : bool) (me : user) :
  Dict.get (users_file st) v = Some me ->
  vote_page st v now rnd left right
  = let pruned := prune_vote_times now (vote_times me) in
    let users := Dict.set (users_file st) v (set_vote_times pruned me) in
    if limit_reached pruned then Ok (RateLimited, st)
    else
      sv <- select_pair (users_file st) (votes_file st) v (gender me) rnd ;;
      match fst sv with
      | NotEnoughEligible => Ok (WaitingForUploads, st)
      | NoPairLeft => Ok (AllPairsRated, st)
      | Pair a b =>
          if left then
            st' <- cast_vote users (snd sv) v now a b 1%R ;;
            Ok (Voted a b true, st')
          else if right then
            st' <- cast_vote users (snd sv) v now a b 0%R ;;
            Ok (Voted a b false, st')
          else Ok (PairShown a b, st)
      end.
Proof.
  intros Hget. unfold vote_page, Dict.lookup. rewrite Hget. cbn [bind].
  cbv zeta. now rewrite (select_pair_set_vote_times _ _ _ _ _ _ _ _ Hget).
Qed.

(** A run in which a pair is offered and a button reports a click: the
    run completes, and the files it leaves differ from the ones it found
    in the two ratings, the two match counts, the voter's history and the
    voter's timestamps, and in nothing else. *)
Lemma vote_page_voted (st : store) (v : string) (now : Z) (rnd : nat)
    (left right : bool) (me : user) (a b : string) (votes' : votes_t) :
  Dict.wf (users_file st) = true ->
  Dict.get (users_file st) v = Some me ->
  limit_reached (prune_vote_times now (vote_times me)) = false ->
  select_pair (users_file st) (votes_file st) v (gender me) rnd
  = Ok (Pair a b, votes') ->
  left || right = true ->
  exists ua ub st',
    Dict.get (users_file st) a = Some ua
    /\ Dict.get (users_file st) b = Some ub
    /\ a <> b /\ a <> v /\ b <> v
    /\ sorted2 a b = (a, b)
    /\ ~ In (a, b) (history st v)
    /\ vote_page st v now rnd left right = Ok (Voted a b left, st')
    /\ (let r := update_elo (IZR (elo ua)) (IZR (elo ub))
                            (if left then 1%R else 0%R) in
        Dict.get (users_file st') a
        = Some (mkUser (password ua) (fst r) (pic ua) (gender ua)
                       (vote_times ua) (matches_played ua + 1))
        /\ Dict.get (users_file st') b
           = Some (mkUser (password ub) (snd r) (pic ub) (gender ub)
                          (vote_times ub) (matches_played ub + 1)))
    /\ Dict.get (users_file st') v
       = Some (set_vote_times (record_vote now (vote_times me)) me)
    /\ history st' v = history st v ++ [(a, b)]
    /\ (forall u, u <> a -> u <> b -> u <> v ->
                  Dict.get (users_file st') u = Dict.get (users_file st) u)
    /\ (forall w, w <> v -> history st' w = history st w)
    /\ Dict.keys (users_file st') = Dict.keys (users_file st).
Proof.
  intros Hwf Hme Hlim Hsel Hclick.
  destruct (select_pair_candidate _ _ _ _ _ _ _ _ Hsel) as [Hcand ->].
  apply candidates_In in Hcand. destruct Hcand as (Henum & Hnew & _).
  pose proof (enumerate_pairs_members _ _ Henum) as [Hael Hbel].
  pose proof (enumerate_pairs_distinct _ _ (eligible_NoDup _ v (gender me) Hwf)
                                       Henum) as Hab.
  pose proof (enumerate_pairs_sorted _ _ Henum) as Hsorted.
  cbn [fst snd] in Hael, Hbel, Hab, Hsorted.
  assert (Hav : a <> v) by (apply eligible_In in Hael; destruct Hael; tauto).
  assert (Hbv : b <> v) by (apply eligible_In in Hbel; destruct Hbel; tauto).
  destruct (get_in_keys _ _ (eligible_keys _ _ _ _ Hael)) as [ua Hua].
  destruct (get_in_keys _ _ (eligible_keys _ _ _ _ Hbel)) as [ub Hub].
  set (pruned := prune_vote_times now (vote_times me)) in *.
  set (users1 := Dict.set (users_file st) v (set_vote_times pruned me)).
  assert (H1a : Dict.get users1 a = Some ua)
    by (unfold users1; rewrite get_set_other; congruence).
  assert (H1b : Dict.get users1 b = Some ub)
    by (unfold users1; rewrite get_set_other; congruence).
  assert (H1v : Dict.get users1 v = Some (set_vote_times pruned me))
    by apply get_set_same.
  pose proof (get_ensure_history (votes_file st) v) as Hh.
  destruct (cast_vote_effect users1 _ v now a b (if left then 1%R else 0%R)
              _ _ _ _ H1a H1b H1v Hh Hab Hav Hbv)
    as (users' & Hcast & Ga & Gb & Gv & Gother & Gkeys).
  exists ua, ub,
    (mkStore users' (Dict.set (ensure_history (votes_file st) v) v
                              (tried_of (votes_file st) v ++ [sorted2 a b]))).
  cbn [users_file votes_file].
  repeat match goal with |- _ /\ _ => split end; try assumption.
  - rewrite (vote_page_closed _ _ _ _ _ _ _ Hme). cbv zeta.
    fold pruned. rewrite Hlim, Hsel. cbn [bind fst snd]. fold users1.
    destruct left; [| destruct right; [| discriminate Hclick]];
      rewrite Hcast; reflexivity.
  - unfold history. cbn [votes_file]. unfold tried_of at 1.
    now rewrite get_set_same, Hsorted.
  - intros u Hu1 Hu2 Hu3. rewrite Gother by assumption.
    unfold users1. rewrite get_set_other; congruence.
  - intros w Hw. unfold history. cbn [votes_file]. unfold tried_of at 1.
    rewrite get_set_other by congruence.
    now rewrite get_ensure_history_other by congruence.
  - rewrite Gkeys. unfold users1. now rewrite (keys_set_present _ _ _ _ Hme).
Qed.

(** The end-to-end scenario: V presses the left button on A against B. *)
Lemma duel_left_wins (now : Z) (rnd : nat) :
  vote_page duel_store "V" now rnd true false
  = Ok (Voted "A" "B" true, duel_store_after now).
Proof.
  rewrite (vote_page_closed duel_store "V" now rnd true false
             (new_user "v" Male) eq_refl).
  cbv zeta.
  change (limit_reached (prune_vote_times now (vote_times (new_user "v" Male))))
    with false. cbv iota.
  rewrite select_pair_closed.
  change (candidates (users_file duel_store)
            (tried_of (votes_file duel_store) "V")
            (eligible (users_file duel_store) "V" (gender (new_user "v" Male))))
    with [("A", "B")]%string.
  change (List.length (eligible (users_file duel_store) "V"
                                (gender (new_user "v" Male))) <? 2)%nat
    with false.
  cbv iota.
  assert (Hc : forall n, random_choice n ("A", "B")%string [] = ("A", "B")%string).
  { intros n. unfold random_choice. cbn [List.length].
    rewrite Nat.mod_1_r. reflexivity. }
  rewrite Hc. cbn [bind fst snd].
  unfold cast_vote, Dict.modify, Dict.lookup. cbn -[update_elo IZR].
  change (IZR BASE_ELO) with (IZR 1200).
  rewrite (update_elo_equal_win 1200). cbn [fst snd].
  reflexivity.
Qed.

Lemma NoDup_snoc (A : Type) (l : list A) (x : A) :
  NoDup l -> ~ In x l -> NoDup (l ++ [x]).
Proof.
  intros Hnd Hni. apply NoDup_rev in Hnd. rewrite <- (rev_involutive (l ++ [x])).
  apply NoDup_rev. rewrite rev_app_distr. simpl. constructor; [| assumption].
  now rewrite <- in_rev.
Qed.

(** What any completed run does to the files: nothing, unless it is an
    accepted vote, which appends a pair the voter's history did not hold
    to that history and to no other. *)
Lemma vote_page_files (st st' : store) (v : string) (now : Z) (rnd : nat)
    (left right : bool) (o : outcome) :
  vote_page st v now rnd left right = Ok (o, st') ->
  match o with
  | Voted a b _ =>
      sorted2 a b = (a, b)
      /\ ~ In (a, b) (history st v)
      /\ history st' v = history st v ++ [(a, b)]
      /\ (forall w, w <> v -> history st' w = history st w)
  | _ => st' = st
  end.
Proof.
  destruct (Dict.get (users_file st) v) as [me |] eqn:Hme.
  2: { unfold vote_page, Dict.lookup. rewrite Hme. discriminate. }
  rewrite (vote_page_closed _ _ _ _ _ _ _ Hme). cbv zeta.
  destruct (limit_reached _); [now intros [= <- <-] |].
  destruct (select_pair _ _ v (gender me) rnd) as [[sel votes'] |] eqn:Hsel;
    cbn [bind fst snd]; [| discriminate].
  destruct sel as [| | a b]; try (now intros [= <- <-]).
  apply select_pair_candidate in Hsel. destruct Hsel as [Hcand ->].
  apply candidates_In in Hcand. destruct Hcand as (Henum & Hnew & _).
  pose proof (enumerate_pairs_sorted _ _ Henum) as Hsorted.
  cbn [fst snd] in Hsorted.
  assert (Hcast : forall sa st1,
            cast_vote (Dict.set (users_file st) v
                         (set_vote_times
                            (prune_vote_times now (vote_times me)) me))
                      (ensure_history (votes_file st) v) v now a b sa = Ok st1 ->
            sorted2 a b = (a, b)
            /\ ~ In (a, b) (history st v)
            /\ history st1 v = history st v ++ [(a, b)]
            /\ (forall w, w <> v -> history st1 w = history st w)).
  { intros sa st1 H1. apply cast_vote_votes in H1. destruct H1 as [h [Hh Hv]].
    rewrite get_ensure_history in Hh. injection Hh as <-.
    repeat split; try assumption.
    - unfold history at 1. rewrite Hv. unfold tried_of at 1.
      now rewrite get_set_same, Hsorted.
    - intros w Hw. unfold history at 1. rewrite Hv. unfold tried_of at 1.
      rewrite get_set_other by congruence.
      now rewrite get_ensure_history_other by congruence. }
  destruct left; [| destruct right].
  - destruct (cast_vote _ _ v now a b 1%R) as [st1 |] eqn:E; cbn [bind];
      [| discriminate].
    intros [= <- <-]. eapply Hcast. eassumption.
  - destruct (cast_vote _ _ v now a b 0%R) as [st1 |] eqn:E; cbn [bind];
      [| discriminate].
    intros [= <- <-]. eapply Hcast. eassumption.
  - now intros [= <- <-].
Qed.



End PageFacts.

(** ** Rate limiter *)

Section RateLimiterFacts.

Local Open Scope Z_scope.

Lemma prune_In (now : Z) (ts : list Z) (t : Z) :
  In t (prune_vote_times now ts) <-> In t ts /\ now - t < HOUR.
Proof.
  unfold prune_vote_times, within_window. now rewrite filter_In, Z.ltb_lt.
Qed.

Lemma filter_filter_weaker (A : Type) (f g : A -> bool) (l : list A) :
  (forall x, f x = true -> g x = true) ->
  filter f (filter g l) = filter f l.
Proof.
  intros Hfg. induction l as [| x r IH]; simpl; [reflexivity |].
  destruct (g x) eqn:Eg; simpl.
  - now rewrite IH.
  - destruct (f x) eqn:Ef; [| assumption].
    apply Hfg in Ef. congruence.
Qed.

(** A pruning at an earlier moment removes nothing a later one keeps. *)
Lemma prune_prune (now t : Z) (ts : list Z) :
  t <= now ->
  prune_vote_times now (prune_vote_times t ts) = prune_vote_times now ts.
Proof.
  intros Hle. unfold prune_vote_times. apply filter_filter_weaker.
  intros x. unfold within_window. rewrite !Z.ltb_lt. lia.
Qed.

Lemma prune_record_vote (now t : Z) (ts : list Z) :
  t <= now -> now - t < HOUR ->
  prune_vote_times now (record_vote t ts) = prune_vote_times now ts ++ [t].
Proof.
  intros Hle Hin. unfold record_vote.
  unfold prune_vote_times at 1. rewrite filter_app.
  fold (prune_vote_times now (prune_vote_times t ts)).
  rewrite prune_prune by assumption. cbn [filter].
  destruct (within_window now t) eqn:E; [reflexivity |].
  unfold within_window in E. apply Z.ltb_ge in E. lia.
Qed.

(** Votes accepted at moments that [now] still has in its window are all
    counted at [now]. *)
Lemma prune_accepted_votes (now : Z) (times : list Z) (ts0 : list Z) :
  Forall (fun t => t <= now /\ now - t < HOUR) times ->
  prune_vote_times now (fold_left (fun ts t => record_vote t ts) times ts0)
  = prune_vote_times now ts0 ++ times.
Proof.
  revert ts0. induction times as [| t r IH]; intros ts0 Hall; simpl.
  - now rewrite app_nil_r.
  - inversion Hall as [| ? ? [Hle Hin] Hall']; subst.
    rewrite IH by assumption. rewrite prune_record_vote by assumption.
    now rewrite <- app_assoc.
Qed.

Lemma filter_length_le (A : Type) (f : A -> bool) (l : list A) :
  (List.length (filter f l) <= List.length l)%nat.
Proof.
  induction l as [| x r IH]; simpl; [lia |]. destruct (f x); simpl; lia.
Qed.

Lemma filter_length_lt (A : Type) (f : A -> bool) (l : list A) (x : A) :
  In x l -> f x = false -> (List.length (filter f l) < List.length l)%nat.
Proof.
  induction l as [| y r IH]; simpl; [tauto |].
  intros [-> | Hin] Hf.
  - rewrite Hf. pose proof (filter_length_le _ f r). lia.
  - specialize (IH Hin Hf). destruct (f y); simpl; lia.
Qed.

Lemma prune_all_elapsed (now : Z) (ts : list Z) :
  Forall (fun t => HOUR <= now - t) ts -> prune_vote_times now ts = [].
Proof.
  induction 1 as [| t r Ht Hall IH]; cbn [prune_vote_times filter];
    [reflexivity |].
  destruct (within_window now t) eqn:E; [| exact IH].
  unfold within_window in E. apply Z.ltb_lt in E. lia.
Qed.

Lemma limit_reached_iff (ts : list Z) :
  limit_reached ts = true <-> (15 <= List.length ts)%nat.
Proof. unfold limit_reached, MAX_VOTES_PER_HOUR. apply Nat.leb_le. Qed.

(** For a logged-in user the page answers "Vote limit reached." exactly
    when 15 or more of the stored timestamps survive the pruning. *)
Lemma vote_page_rate_limited (st st' : store) (v : string) (now : Z)
    (rnd : nat) (left right : bool) (me : user) (o : outcome) :
  Dict.get (users_file st) v = Some me ->
  vote_page st v now rnd left right = Ok (o, st') ->
  (o = RateLimited <->
   (15 <= List.length (prune_vote_times now (vote_times me)))%nat).
Proof.
  intros Hme. rewrite (vote_page_closed _ _ _ _ _ _ _ Hme). cbv zeta.
  rewrite <- limit_reached_iff.
  destruct (limit_reached _); [intros [= <- <-]; tauto |].
  destruct (select_pair _ _ v (gender me) rnd) as [[sel votes'] |];
    cbn [bind fst snd]; [| discriminate].
  intros H. split; [| discriminate]. intros ->.
  destruct sel as [| | a b]; try discriminate.
  destruct left; [| destruct right]; try discriminate;
    destruct (cast_vote _ _ _ _ _ _ _); discriminate.
Qed.

Lemma vote_page_limit (st : store) (v : string) (now : Z) (rnd : nat)
    (left right : bool) (me : user) :
  Dict.get (users_file st) v = Some me ->
  (15 <= List.length (prune_vote_times now (vote_times me)))%nat ->
  vote_page st v now rnd left right = Ok (RateLimited, st).
Proof.
  intros Hme H15. rewrite (vote_page_closed _ _ _ _ _ _ _ Hme). cbv zeta.
  apply limit_reached_iff in H15. now rewrite H15.
Qed.

End RateLimiterFacts.

(** ** Percentile calculator *)

Section SortedFacts.

Variable A : Type.
Variable key : A -> Z.

Lemma insert_by_perm (x : A) (l : list A) :
  Permutation (insert_by key x l) (x :: l).
Proof.
  induction l as [| y r IH]; simpl; [reflexivity |].
  destruct (key x <=? key y)%Z; [reflexivity |].
  rewrite IH. apply perm_swap.
Qed.

Lemma sorted_by_perm (l : list A) : Permutation (sorted_by key l) l.
Proof.
  induction l as [| x r IH]; simpl; [reflexivity |].
  rewrite insert_by_perm. now constructor.
Qed.

Lemma sorted_by_length (l : list A) :
  List.length (sorted_by key l) = List.length l.
Proof. apply Permutation_length, sorted_by_perm. Qed.

Lemma insert_by_sorted (x : A) (l : list A) :
  StronglySorted (key_le key) l -> StronglySorted (key_le key) (insert_by key x l).
Proof.
  induction 1 as [| y r Hs IH Hall]; simpl.
  - constructor; constructor.
  - destruct (Z.leb_spec (key x) (key y)) as [Hle | Hgt].
    + constructor; [now constructor |].
      constructor; [assumption |].
      eapply Forall_impl; [| exact Hall].
      intros z Hz. unfold key_le in *. lia.
    + constructor; [assumption |].
      rewrite Forall_forall. intros z Hz.
      apply (Permutation_in _ (insert_by_perm x r)) in Hz.
      destruct Hz as [<- | Hz].
      * unfold key_le. lia.
      * rewrite Forall_forall in Hall. now apply Hall.
Qed.

Lemma sorted_by_sorted (l : list A) : StronglySorted (key_le key) (sorted_by key l).
Proof.
  induction l as [| x r IH]; simpl; [constructor | now apply insert_by_sorted].
Qed.

(** Stability: the entries of one key keep the order they came in. *)
Lemma insert_by_stable (k : Z) (x : A) (l : list A) :
  filter (fun y => (key y =? k)%Z) (insert_by key x l)
  = filter (fun y => (key y =? k)%Z) (x :: l).
Proof.
  induction l as [| y r IH]; [reflexivity |].
  cbn [insert_by]. destruct (Z.leb_spec (key x) (key y)) as [Hle | Hgt];
    [reflexivity |].
  cbn [filter] in *. rewrite IH.
  destruct (Z.eqb_spec (key x) k) as [Hx | Hx],
           (Z.eqb_spec (key y) k) as [Hy | Hy]; try reflexivity.
  lia.
Qed.

Lemma sorted_by_stable (k : Z) (l : list A) :
  filter (fun y => (key y =? k)%Z) (sorted_by key l)
  = filter (fun y => (key y =? k)%Z) l.
Proof.
  induction l as [| x r IH]; [reflexivity |].
  cbn [sorted_by]. rewrite insert_by_stable. cbn [filter]. now rewrite IH.
Qed.

End SortedFacts.

Section OrderFacts.

Variable A : Type.

Lemma before_filter (f : A -> bool) (x y : A) (l : list A) :
  before x y l -> f x = true -> f y = true -> before x y (filter f l).
Proof.
  intros (l1 & l2 & l3 & ->) Hx Hy.
  exists (filter f l1), (filter f l2), (filter f l3).
  rewrite filter_app. cbn [filter]. rewrite Hx, filter_app. cbn [filter].
  now rewrite Hy.
Qed.

Lemma filter_eq_app (f : A -> bool) (l m1 m2 : list A) :
  filter f l = m1 ++ m2 ->
  exists l1 l2, l = l1 ++ l2 /\ filter f l1 = m1 /\ filter f l2 = m2.
Proof.
  revert m1. induction l as [| z r IH]; intros m1 H.
  - simpl in H. symmetry in H. apply app_eq_nil in H. destruct H as [-> ->].
    now exists [], [].
  - cbn [filter] in H. destruct (f z) eqn:Ez.
    + destruct m1 as [| w m1].
      * exists [], (z :: r). cbn [filter app]. now rewrite Ez.
      * simpl in H. injection H as <- H. destruct (IH _ H) as (l1 & l2 & -> & H1 & H2).
        exists (z :: l1), l2. cbn [filter app]. rewrite Ez, H1. tauto.
    + destruct (IH _ H) as (l1 & l2 & -> & H1 & H2).
      exists (z :: l1), l2. cbn [filter app]. rewrite Ez. tauto.
Qed.

Lemma filter_eq_cons (f : A -> bool) (l : list A) (x : A) (m : list A) :
  filter f l = x :: m ->
  exists l1 l2, l = l1 ++ x :: l2 /\ filter f l2 = m.
Proof.
  induction l as [| z r IH]; [discriminate |].
  cbn [filter]. destruct (f z) eqn:Ez.
  - intros [= -> <-]. now exists [], r.
  - intros H. destruct (IH H) as (l1 & l2 & -> & H2).
    now exists (z :: l1), l2.
Qed.

Lemma filter_before (f : A -> bool) (x y : A) (l : list A) :
  before x y (filter f l) -> before x y l.
Proof.
  intros (m1 & m2 & m3 & H).
  apply filter_eq_app in H. destruct H as (l1 & l2 & -> & _ & H).
  apply filter_eq_cons in H. destruct H as (l3 & l4 & -> & H).
  apply filter_eq_app in H. destruct H as (l5 & l6 & -> & _ & H).
  apply filter_eq_cons in H. destruct H as (l7 & l8 & -> & _).
  exists (l1 ++ l3), (l5 ++ l7), l8.
  now rewrite <- !app_assoc.
Qed.

Lemma before_nth_error (x y : A) (l : list A) :
  before x y l ->
  exists i j, (i < j)%nat /\ nth_error l i = Some x /\ nth_error l j = Some y.
Proof.
  intros (l1 & l2 & l3 & ->).
  exists (List.length l1), (List.length l1 + S (List.length l2))%nat.
  split; [lia |]. split.
  - rewrite nth_error_app2 by lia. now rewrite Nat.sub_diag.
  - rewrite nth_error_app2 by lia.
    replace (List.length l1 + S (List.length l2) - List.length l1)%nat
      with (S (List.length l2)) by lia.
    cbn [nth_error]. rewrite nth_error_app2 by lia. now rewrite Nat.sub_diag.
Qed.

Lemma enumerate_from_In (s : nat) (l : list A) (i : nat) (x : A) :
  In (i, x) (enumerate_from s l) <->
  (s <= i)%nat /\ nth_error l (i - s) = Some x.
Proof.
  revert s. induction l as [| y r IH]; intros s; cbn [enumerate_from].
  - split; [contradiction |]. intros [_ H]. destruct (i - s)%nat; discriminate.
  - cbn [In]. rewrite IH. split.
    + intros [[= -> ->] | [Hle Hn]].
      * split; [lia |]. now rewrite Nat.sub_diag.
      * split; [lia |]. replace (i - s)%nat with (S (i - S s)) by lia. exact Hn.
    + intros [Hle Hn]. destruct (Nat.eq_dec i s) as [-> | Hne].
      * rewrite Nat.sub_diag in Hn. injection Hn as ->. now left.
      * right. split; [lia |].
        replace (i - s)%nat with (S (i - S s)) in Hn by lia. exact Hn.
Qed.

End OrderFacts.

Section PercentileFacts.

Lemma set_fresh (V : Type) (d : Dict.t V) (k : string) (v : V) :
  ~ In k (Dict.keys d) -> Dict.set d k v = d ++ [(k, v)].
Proof.
  unfold Dict.keys. induction d as [| [k0 w] r IH]; simpl; [reflexivity |].
  intros Hni. destruct (String.eqb_spec k0 k) as [-> | Hne]; [tauto |].
  rewrite IH; tauto.
Qed.

Lemma enumerate_from_snd (A : Type) (s : nat) (l : list A) :
  map snd (enumerate_from s l) = l.
Proof.
  revert s. induction l as [| x r IH]; intros s; simpl; [reflexivity |].
  now rewrite IH.
Qed.

(** The loop of lines 63-65 over entries with distinct keys that the dict
    does not hold yet appends one item per entry. *)
Lemma fill_percentiles (N : nat) (l : list (nat * (string * user)))
    (acc : Dict.t Q) :
  NoDup (Dict.keys acc ++ map (fun re => fst (snd re)) l) ->
  fold_left
    (fun percentiles re =>
       let '(rank, (email, data)) := re in
       Dict.set percentiles email (percentile_of rank N))
    l acc
  = acc ++ map (fun re => (fst (snd re), percentile_of (fst re) N)) l.
Proof.
  revert acc. induction l as [| [rank [email data]] r IH]; intros acc Hnd.
  - simpl. now rewrite app_nil_r.
  - cbn [fold_left map fst snd] in *.
    assert (Hfresh : ~ In email (Dict.keys acc)).
    { apply NoDup_remove_2 in Hnd. intros Hin. apply Hnd.
      apply in_or_app. now left. }
    rewrite (set_fresh _ _ _ _ Hfresh). rewrite IH.
    + now rewrite <- app_assoc.
    + unfold Dict.keys in *. rewrite map_app. cbn [map fst].
      now rewrite <- app_assoc.
Qed.

Lemma sorted_users_keys (users : users_t) :
  Dict.wf users = true -> NoDup (map fst (sorted_by by_elo users)).
Proof.
  rewrite wf_NoDup. unfold Dict.keys. intros Hnd.
  eapply Permutation_NoDup; [| exact Hnd].
  apply Permutation_map, Permutation_sym, sorted_by_perm.
Qed.

(** With distinct keys, the returned dict lists the participants by
    ascending rating, each with the percentile of its rank. *)
Lemma compute_percentiles_closed (users : users_t) :
  Dict.wf users = true ->
  compute_percentiles users
  = map (fun re => (fst (snd re), percentile_of (fst re) (List.length users)))
        (enumerate_from 0 (sorted_by by_elo users)).
Proof.
  intros Hwf. unfold compute_percentiles.
  rewrite sorted_by_length. rewrite fill_percentiles; [reflexivity |].
  cbn [Dict.keys map app].
  rewrite <- (map_map snd fst), enumerate_from_snd.
  now apply sorted_users_keys.
Qed.

Lemma compute_percentiles_keys (users : users_t) :
  Dict.wf users = true ->
  Dict.keys (compute_percentiles users) = map fst (sorted_by by_elo users).
Proof.
  intros Hwf. rewrite (compute_percentiles_closed _ Hwf). unfold Dict.keys.
  rewrite map_map. cbn [fst].
  now rewrite <- (map_map snd fst), enumerate_from_snd.
Qed.

Lemma compute_percentiles_rank (users : users_t) (r : nat) (e : string)
    (d : user) :
  Dict.wf users = true ->
  nth_error (sorted_by by_elo users) r = Some (e, d) ->
  Dict.get (compute_percentiles users) e
  = Some (percentile_of r (List.length users)).
Proof.
  intros Hwf Hn. apply in_wf_get.
  - apply wf_NoDup. rewrite (compute_percentiles_keys _ Hwf).
    now apply sorted_users_keys.
  - rewrite (compute_percentiles_closed _ Hwf). apply in_map_iff.
    exists (r, (e, d)). split; [reflexivity |].
    apply enumerate_from_In. split; [lia |]. now rewrite Nat.sub_0_r.
Qed.

(** Conversely every percentile of the dict is the one of a rank. *)
Lemma compute_percentiles_get (users : users_t) (e : string) (p : Q) :
  Dict.wf users = true ->
  Dict.get (compute_percentiles users) e = Some p ->
  exists r d, nth_error (sorted_by by_elo users) r = Some (e, d)
              /\ p = percentile_of r (List.length users).
Proof.
  intros Hwf Hget. apply get_some_in in Hget.
  rewrite (compute_percentiles_closed _ Hwf) in Hget.
  apply in_map_iff in Hget. destruct Hget as [[r [e' d]] [Heq Hin]].
  cbn [fst snd] in Heq. injection Heq as -> <-.
  apply enumerate_from_In in Hin. destruct Hin as [_ Hn].
  rewrite Nat.sub_0_r in Hn. now exists r, d.
Qed.

Lemma percentile_of_lt (N r1 r2 : nat) :
  (2 <= N)%nat -> (r1 < r2)%nat ->
  (percentile_of r1 N < percentile_of r2 N)%Q.
Proof.
  intros HN Hr. unfold percentile_of.
  replace (1 <? N)%nat with true by (symmetry; apply Nat.ltb_lt; lia).
  assert (Hpos : (0 < inject_Z (Z.of_nat N - 1))%Q).
  { unfold Qlt, inject_Z. simpl. lia. }
  apply Qmult_lt_compat_r; [reflexivity |].
  unfold Qdiv. apply Qmult_lt_compat_r; [now apply Qinv_lt_0_compat |].
  rewrite <- Zlt_Qlt. lia.
Qed.

Lemma percentile_of_inj (N r1 r2 : nat) :
  (2 <= N)%nat -> (percentile_of r1 N == percentile_of r2 N)%Q -> r1 = r2.
Proof.
  intros HN Heq. destruct (Nat.lt_total r1 r2) as [H | [H | H]];
    [| assumption |].
  - apply (percentile_of_lt N) in H; [| assumption].
    rewrite Heq in H. now apply Qlt_irrefl in H.
  - apply (percentile_of_lt N) in H; [| assumption].
    rewrite Heq in H. now apply Qlt_irrefl in H.
Qed.

End PercentileFacts.

(** ** The order of a recorded pair *)

Section PairOrder.

(** In a sorted pair of two different names the first one comes first in
    the order of the strings. *)
Lemma sorted2_ordered (a b : string) :
  sorted2 a b = (a, b) -> a <> b -> String.compare a b = Lt.
Proof.
  unfold sorted2, String.ltb. intros Hs Hab.
  rewrite (String.compare_antisym b a) in Hs.
  destruct (String.compare a b) eqn:E; cbn [CompOpp] in Hs.
  - apply String.compare_eq_iff in E. contradiction.
  - reflexivity.
  - injection Hs as Hba _. congruence.
Qed.

(** The end-to-end scenario with B registered first: the pair is offered
    and recorded as A, B all the same. *)
Lemma rematch_left_wins (now : Z) (rnd : nat) :
  vote_page rematch_store "V" now rnd true false
  = Ok (Voted "A" "B" true, rematch_store_after now).
Proof.
  rewrite (vote_page_closed rematch_store "V" now rnd true false
             (new_user "v" Male) eq_refl).
  cbv zeta.
  change (limit_reached (prune_vote_times now (vote_times (new_user "v" Male))))
    with false. cbv iota.
  rewrite select_pair_closed.
  change (candidates (users_file rematch_store)
            (tried_of (votes_file rematch_store) "V")
            (eligible (users_file rematch_store) "V"
                      (gender (new_user "v" Male))))
    with [("A", "B")]%string.
  change (List.length (eligible (users_file rematch_store) "V"
                                (gender (new_user "v" Male))) <? 2)%nat
    with false.
  cbv iota.
  assert (Hc : forall n,
             random_choice n ("A", "B")%string [] = ("A", "B")%string).
  { intros n. unfold random_choice. cbn [List.length].
    rewrite Nat.mod_1_r. reflexivity. }
  rewrite Hc. cbn [bind fst snd].
  unfold cast_vote, Dict.modify, Dict.lookup. cbn -[update_elo IZR].
  change (IZR BASE_ELO) with (IZR 1200).
  rewrite (update_elo_equal_win 1200). cbn [fst snd].
  reflexivity.
Qed.

(** With three participants: a run with the left button pressed and the
    draw 1 books the vote on A against C. *)
Lemma trio_click (now : Z) :
  vote_page trio_store "V" now 1 true false
  = Ok (Voted "A" "C" true, trio_store_after now).
Proof.
  rewrite (vote_page_closed trio_store "V" now 1 true false
             (new_user "v" Male) eq_refl).
  cbv zeta.
  change (limit_reached (prune_vote_times now (vote_times (new_user "v" Male))))
    with false. cbv iota.
  rewrite select_pair_closed.
  change (candidates (users_file trio_store)
            (tried_of (votes_file trio_store) "V")
            (eligible (users_file trio_store) "V"
                      (gender (new_user "v" Male))))
    with [("A", "B"); ("A", "C"); ("B", "C")]%string.
  change (List.length (eligible (users_file trio_store) "V"
                                (gender (new_user "v" Male))) <? 2)%nat
    with false.
  cbv iota.
  change (random_choice 1 ("A", "B")%string [("A", "C"); ("B", "C")]%string)
    with ("A", "C")%string.
  cbn [bind fst snd].
  unfold cast_vote, Dict.modify, Dict.lookup. cbn -[update_elo IZR].
  change (IZR BASE_ELO) with (IZR 1200).
  rewrite (update_elo_equal_win 1200). cbn [fst snd].
  reflexivity.
Qed.

End PairOrder.

(** * The claims *)

Section Claims.


(** C4: with fewer than 30 uploaded photos in the whole of [users] the
    list of possible pairs is the list of all pairs of eligible
    participants that the history does not hold, whatever their ratings,
    and each of them is returned for some draw; with 30 photos or more
    the ratings of a returned pair differ by at most 100. *)
Theorem elo_matching_threshold :
  (forall users votes v g,
     (uploaded_photos_count users < 30)%nat ->
     possible_pairs users (tried_of votes v) (eligible users v g)
     = Ok (filter (fun p => negb (pair_in p (tried_of votes v)))
                  (enumerate_pairs (eligible users v g)))
     /\ forall p,
          In p (enumerate_pairs (eligible users v g)) ->
          ~ In p (tried_of votes v) ->
          exists rnd,
            select_pair users votes v g rnd
            = Ok (Pair (fst p) (snd p), ensure_history votes v))
  /\ (forall users votes votes' v g rnd a b,
        (30 <= uploaded_photos_count users)%nat ->
        select_pair users votes v g rnd = Ok (Pair a b, votes') ->
        exists ua ub,
          Dict.get users a = Some ua /\ Dict.get users b = Some ub
          /\ (Z.abs (elo ua - elo ub) <= 100)%Z).
Proof.
  split.
  - intros users votes v g Hlt. split.
    + rewrite possible_pairs_candidates. f_equal. unfold candidates.
      apply filter_ext. intros p. unfold is_candidate.
      replace (30 <=? uploaded_photos_count users)%nat with false
        by (symmetry; apply Nat.leb_gt; lia).
      apply andb_true_r.
    + intros p Henum Hnew. apply select_pair_reaches.
      apply candidates_In. repeat split; try assumption. intros; lia.
  - intros users votes votes' v g rnd a b Hge Hsel.
    apply select_pair_candidate in Hsel. destruct Hsel as [Hcand _].
    apply candidates_In in Hcand. destruct Hcand as (Henum & _ & Hdiff).
    specialize (Hdiff Hge). cbn [fst snd] in Hdiff.
    apply enumerate_pairs_members in Henum. destruct Henum as [Ha Hb].
    cbn [fst snd] in Ha, Hb.
    destruct (get_in_keys _ _ (eligible_keys _ _ _ _ Ha)) as [ua Hua].
    destruct (get_in_keys _ _ (eligible_keys _ _ _ _ Hb)) as [ub Hub].
    exists ua, ub. rewrite (elo_of_get _ _ _ Hua), (elo_of_get _ _ _ Hub) in Hdiff.
    tauto.
Qed.

Lemma elo_matching_threshold_witness :
  ((uploaded_photos_count (users_file duel_store) < 30)%nat
   /\ exists rnd,
        select_pair (users_file duel_store) [] "V" Male rnd
        = Ok (Pair "A" "B", ensure_history [] "V"))
  /\ ((30 <= uploaded_photos_count crowd)%nat
      /\ select_pair crowd [] "v" Male 0 = Ok (Pair "A" "B", [("v"%string, [])])
      /\ exists ua ub,
           Dict.get crowd "A" = Some ua /\ Dict.get crowd "B" = Some ub
           /\ (Z.abs (elo ua - elo ub) <= 100)%Z).
Proof.
  split.
  - split; [vm_compute; lia |].
    refine (proj2 (proj1 elo_matching_threshold (users_file duel_store) []
                     "V"%string Male _) ("A", "B")%string _ _).
    + vm_compute; lia.
    + vm_compute; tauto.
    + vm_compute; tauto.
  - assert (Hc : (30 <= uploaded_photos_count crowd)%nat) by (vm_compute; lia).
    assert (Hs : select_pair crowd [] "v" Male 0
                 = Ok (Pair "A" "B", [("v"%string, [])]))
      by (vm_compute; reflexivity).
    split; [exact Hc |]. split; [exact Hs |].
    exact (proj2 elo_matching_threshold crowd [] _ "v"%string Male 0%nat
                 "A"%string "B"%string Hc Hs).
Defined.


(** A pair that was shown is shown again.  V is shown A against B; V's
    click starts a new run, which draws again and books the vote on A
    against C; the next run shows A against B once more. *)
Lemma shown_pair_is_shown_again :
  vote_page trio_store "V" 0 0 false false
  = Ok (PairShown "A" "B", trio_store)
  /\ vote_page trio_store "V" 1 1 true false
     = Ok (Voted "A" "C" true, trio_store_after 1)
  /\ vote_page (trio_store_after 1) "V" 2 0 false false
     = Ok (PairShown "A" "B", trio_store_after 1).
Proof.
  split; [vm_compute; reflexivity |]. split; [apply trio_click |].
  vm_compute; reflexivity.
Qed.

(** C7: a run in which a pair [a], [b] is offered and a button is pressed
    completes as one vote.  Both ratings are replaced together by the two
    components of one [update_elo] of the two old ratings, both
    [matches_played] go up by 1, the sorted pair goes to the end of the
    voter's history and [now] to the end of the voter's pruned
    timestamps; no other record and no other history changes.  The pair
    is recorded with the name that comes first in the order of the strings
    in front.  With A and B at 1200 a vote for A leaves A at 1216 and B at
    1184, one match each, and [A, B] in the history, also when B was
    registered before A. *)
Theorem accepted_vote_effect :
  (forall st v now rnd left right me a b votes',
     Dict.wf (users_file st) = true ->
     Dict.get (users_file st) v = Some me ->
     limit_reached (prune_vote_times now (vote_times me)) = false ->
     select_pair (users_file st) (votes_file st) v (gender me) rnd
     = Ok (Pair a b, votes') ->
     left || right = true ->
     exists ua ub st',
       Dict.get (users_file st) a = Some ua
       /\ Dict.get (users_file st) b = Some ub
       /\ a <> b /\ a <> v /\ b <> v
       /\ sorted2 a b = (a, b)
       /\ String.compare a b = Lt
       /\ ~ In (a, b) (history st v)
       /\ vote_page st v now rnd left right = Ok (Voted a b left, st')
       /\ (let r := update_elo (IZR (elo ua)) (IZR (elo ub))
                               (if left then 1%R else 0%R) in
           Dict.get (users_file st') a
           = Some (mkUser (password ua) (fst r) (pic ua) (gender ua)
                          (vote_times ua) (matches_played ua + 1))
           /\ Dict.get (users_file st') b
              = Some (mkUser (password ub) (snd r) (pic ub) (gender ub)
                             (vote_times ub) (matches_played ub + 1)))
       /\ Dict.get (users_file st') v
          = Some (set_vote_times (record_vote now (vote_times me)) me)
       /\ history st' v = history st v ++ [(a, b)]
       /\ (forall u, u <> a -> u <> b -> u <> v ->
                     Dict.get (users_file st') u = Dict.get (users_file st) u)
       /\ (forall w, w <> v -> history st' w = history st w)
       /\ Dict.keys (users_file st') = Dict.keys (users_file st))
  /\ (forall now rnd,
        vote_page duel_store "V" now rnd true false
        = Ok (Voted "A" "B" true, duel_store_after now))
  /\ (forall now rnd,
        vote_page rematch_store "V" now rnd true false
        = Ok (Voted "A" "B" true, rematch_store_after now)).
Proof.
  split; [| split].
  - intros st v now rnd left right me a b votes' Hwf Hme Hlim Hsel Hclick.
    destruct (vote_page_voted st v now rnd left right me a b votes'
                Hwf Hme Hlim Hsel Hclick)
      as (ua & ub & st' & Ha & Hb & Hab & Hav & Hbv & Hs & Hrest).
    exists ua, ub, st'.
    split; [exact Ha |]. split; [exact Hb |]. split; [exact Hab |].
    split; [exact Hav |]. split; [exact Hbv |]. split; [exact Hs |].
    split; [now apply sorted2_ordered | exact Hrest].
  - exact duel_left_wins.
  - exact rematch_left_wins.
Qed.

Lemma accepted_vote_effect_witness :
  exists ua ub st',
    Dict.get (users_file duel_store) "A" = Some ua
    /\ Dict.get (users_file duel_store) "B" = Some ub
    /\ vote_page duel_store "V" 5 0 false true = Ok (Voted "A" "B" false, st')
    /\ history st' "V" = [("A", "B")]%string.
Proof.
  destruct (proj1 accepted_vote_effect duel_store "V"%string 5%Z 0%nat
              false true (new_user "v" Male) "A"%string "B"%string
              [("V"%string, [])])
    as (ua & ub & st' & Ha & Hb & _ & _ & _ & _ & _ & _ & Hp & _ & _ & Hh & _).
  - reflexivity.
  - reflexivity.
  - reflexivity.
  - vm_compute; reflexivity.
  - reflexivity.
  - exists ua, ub, st'. repeat split; assumption.
Defined.

(** C8: [select_pair] raises nothing.  With fewer than two eligible
    participants (those with a photo, other than the voter, of the voter's
    gender) its result is the value [NotEnoughEligible]; with two or more
    and no candidate pair it is the value [NoPairLeft]; a pair comes only
    when there are two eligible participants and a candidate, and is then
    a whole candidate pair.  The page turns the two values into its two
    waiting messages. *)
Theorem no_pair_is_a_result :
  (forall users v g u,
     In u (eligible users v g) <->
     exists r, In (u, r) users /\ pic_truthy (pic r) = true
               /\ u <> v /\ gender r = g)
  /\ (forall users votes v g rnd,
        exists sel votes', select_pair users votes v g rnd = Ok (sel, votes'))
  /\ (forall users votes v g rnd,
        (List.length (eligible users v g) < 2)%nat ->
        select_pair users votes v g rnd = Ok (NotEnoughEligible, votes))
  /\ (forall users votes v g rnd,
        (2 <= List.length (eligible users v g))%nat ->
        candidates users (tried_of votes v) (eligible users v g) = [] ->
        select_pair users votes v g rnd
        = Ok (NoPairLeft, ensure_history votes v))
  /\ (forall users votes votes' v g rnd a b,
        select_pair users votes v g rnd = Ok (Pair a b, votes') ->
        (2 <= List.length (eligible users v g))%nat
        /\ In (a, b) (candidates users (tried_of votes v) (eligible users v g)))
  /\ (forall st v now rnd left right me,
        Dict.get (users_file st) v = Some me ->
        limit_reached (prune_vote_times now (vote_times me)) = false ->
        ((List.length (eligible (users_file st) v (gender me)) < 2)%nat ->
         vote_page st v now rnd left right = Ok (WaitingForUploads, st))
        /\ ((2 <= List.length (eligible (users_file st) v (gender me)))%nat ->
            candidates (users_file st) (history st v)
                       (eligible (users_file st) v (gender me)) = [] ->
            vote_page st v now rnd left right = Ok (AllPairsRated, st))).
Proof.
  repeat match goal with |- _ /\ _ => split end.
  - exact eligible_In.
  - intros users votes v g rnd. rewrite select_pair_closed.
    destruct (List.length (eligible users v g) <? 2)%nat; [now eexists; eexists |].
    destruct (candidates _ _ _); now eexists; eexists.
  - intros users votes v g rnd Hlt. rewrite select_pair_closed.
    apply Nat.ltb_lt in Hlt. now rewrite Hlt.
  - intros users votes v g rnd Hge Hnil. rewrite select_pair_closed.
    apply Nat.ltb_ge in Hge. now rewrite Hge, Hnil.
  - intros users votes votes' v g rnd a b Hsel.
    pose proof (select_pair_candidate _ _ _ _ _ _ _ _ Hsel) as [Hcand _].
    split; [| assumption].
    apply candidates_In in Hcand. destruct Hcand as [Henum _].
    now apply enumerate_pairs_two in Henum.
  - intros st v now rnd left right me Hme Hlim. split.
    + intros Hlt. rewrite (vote_page_closed _ _ _ _ _ _ _ Hme). cbv zeta.
      rewrite Hlim, select_pair_closed. apply Nat.ltb_lt in Hlt.
      now rewrite Hlt.
    + intros Hge Hnil. rewrite (vote_page_closed _ _ _ _ _ _ _ Hme). cbv zeta.
      rewrite Hlim, select_pair_closed. apply Nat.ltb_ge in Hge.
      unfold history in Hnil. now rewrite Hge, Hnil.
Qed.

Lemma no_pair_is_a_result_witness :
  select_pair (users_file lonely_store) [] "V" Male 7
  = Ok (NotEnoughEligible, [])
  /\ select_pair (users_file done_store) (votes_file done_store) "V" Male 7
     = Ok (NoPairLeft, votes_file done_store)
  /\ vote_page lonely_store "V" 0 7 true false
     = Ok (WaitingForUploads, lonely_store)
  /\ vote_page done_store "V" 0 7 true false = Ok (AllPairsRated, done_store).
Proof.
  destruct no_pair_is_a_result as (_ & _ & Hfew & Hnone & _ & Hpage).
  repeat match goal with |- _ /\ _ => split end.
  - apply Hfew. vm_compute; lia.
  - apply (Hnone (users_file done_store) (votes_file done_store) "V"%string
                 Male 7%nat); [vm_compute; lia | vm_compute; reflexivity].
  - apply (proj1 (Hpage lonely_store "V"%string 0%Z 7%nat true false
                        (new_user "v" Male) eq_refl eq_refl)).
    vm_compute; lia.
  - apply (proj2 (Hpage done_store "V"%string 0%Z 7%nat true false
                        (new_user "v" Male) eq_refl eq_refl));
      [vm_compute; lia | vm_compute; reflexivity].
Defined.

(** C9: a run that ends on "Vote limit reached.", on "Waiting for more
    uploads" or on "You have rated all available pairs." leaves both files
    as it found them, and so does a run that only shows a pair; the three
    blocking conditions lead to those three ends. *)
Theorem blocked_attempt_writes_nothing :
  (forall st st' v now rnd left right o,
     vote_page st v now rnd left right = Ok (o, st') ->
     o = RateLimited \/ o = WaitingForUploads \/ o = AllPairsRated
     \/ (exists a b, o = PairShown a b) ->
     st' = st)
  /\ (forall st v now rnd left right me,
        Dict.get (users_file st) v = Some me ->
        limit_reached (prune_vote_times now (vote_times me)) = true
        \/ (List.length (eligible (users_file st) v (gender me)) < 2)%nat
        \/ candidates (users_file st) (history st v)
                      (eligible (users_file st) v (gender me)) = [] ->
        exists o,
          (o = RateLimited \/ o = WaitingForUploads \/ o = AllPairsRated)
          /\ vote_page st v now rnd left right = Ok (o, st)
          /\ serve st (mkRequest v now rnd left right) = st).
Proof.
  split.
  - intros st st' v now rnd left right o Hrun Ho.
    apply vote_page_files in Hrun.
    destruct Ho as [-> | [-> | [-> | (a & b & ->)]]]; assumption.
  - intros st v now rnd left right me Hme Hblocked.
    assert (Hrun : exists o,
               (o = RateLimited \/ o = WaitingForUploads \/ o = AllPairsRated)
               /\ vote_page st v now rnd left right = Ok (o, st)).
    { rewrite (vote_page_closed _ _ _ _ _ _ _ Hme). cbv zeta.
      destruct (limit_reached _) eqn:Hlim; [exists RateLimited; tauto |].
      rewrite select_pair_closed. cbn [bind].
      destruct (List.length (eligible _ v (gender me)) <? 2)%nat eqn:Hlen;
        [exists WaitingForUploads; tauto |].
      destruct Hblocked as [Hb | [Hb | Hb]].
      - discriminate.
      - apply Nat.ltb_lt in Hb. congruence.
      - unfold history in Hb. rewrite Hb. exists AllPairsRated. tauto. }
    destruct Hrun as (o & Ho & Hrun). exists o.
    repeat split; try assumption.
    unfold serve. cbn [req_user req_now req_rnd req_left req_right].
    now rewrite Hrun.
Qed.

Lemma blocked_attempt_writes_nothing_witness :
  exists o,
    (o = RateLimited \/ o = WaitingForUploads \/ o = AllPairsRated)
    /\ vote_page busy_store "V" 20 3 true false = Ok (o, busy_store)
    /\ serve busy_store (mkRequest "V" 20 3 true false) = busy_store.
Proof.
  apply (proj2 blocked_attempt_writes_nothing busy_store "V"%string 20%Z 3%nat
               true false (mkUser "pw" 1200 None Male busy_times 0)).
  - reflexivity.
  - left. vm_compute; reflexivity.
Defined.

Lemma sorted_nth_le (A : Type) (R : A -> A -> Prop) (l : list A) (i j : nat)
    (x y : A) :
  StronglySorted R l -> (i < j)%nat ->
  nth_error l i = Some x -> nth_error l j = Some y -> R x y.
Proof.
  intros Hs. revert i j. induction Hs as [| z r Hs IH Hall]; intros i j Hij Hi Hj.
  - destruct i; discriminate.
  - destruct j as [| j]; [lia |]. cbn [nth_error] in Hj.
    destruct i as [| i].
    + cbn [nth_error] in Hi. injection Hi as ->.
      rewrite Forall_forall in Hall. apply Hall.
      eapply nth_error_In. eassumption.
    + cbn [nth_error] in Hi. apply (IH i j); [lia | assumption | assumption].
Qed.

(** C6: for a dict of participants, whatever their gender, photo and
    matches, [compute_percentiles] sorts all of them by ascending rating
    and gives the participant of rank [r] (from 0) the percentile
    [r / (N - 1) * 100] when [N > 1] and 100 when [N = 1]; the ratings
    1000, 1200, 1400 get 0, 50, 100. *)
Theorem compute_percentiles_by_rank :
  (forall users,
     Dict.wf users = true ->
     let sorted_users := sorted_by by_elo users in
     let N := List.length users in
     Permutation sorted_users users
     /\ StronglySorted (key_le by_elo) sorted_users
     /\ Dict.keys (compute_percentiles users) = map fst sorted_users
     /\ forall r e d,
          nth_error sorted_users r = Some (e, d) ->
          Dict.get (compute_percentiles users) e
          = Some (if (1 <? N)%nat
                  then (inject_Z (Z.of_nat r) / inject_Z (Z.of_nat N - 1) * 100)%Q
                  else 100%Q))
  /\ (forall e d, compute_percentiles [(e, d)] = [(e, 100%Q)])
  /\ map (fun kv => (fst kv, Qred (snd kv))) (compute_percentiles three_users)
     = [("a"%string, 0%Q); ("b"%string, 50%Q); ("c"%string, 100%Q)].
Proof.
  split; [| split].
  - intros users Hwf sorted_users N.
    repeat match goal with |- _ /\ _ => split end.
    + apply sorted_by_perm.
    + apply sorted_by_sorted.
    + now apply compute_percentiles_keys.
    + intros r e d Hn. now apply compute_percentiles_rank with (d := d).
  - intros e d. reflexivity.
  - vm_compute. reflexivity.
Qed.

Lemma compute_percentiles_by_rank_witness :
  Dict.wf three_users = true
  /\ nth_error (sorted_by by_elo three_users) 1
     = Some ("b"%string, mkUser "pw" 1200 None Female [] 0)
  /\ Dict.get (compute_percentiles three_users) "b"
     = Some (inject_Z (Z.of_nat 1) / inject_Z (Z.of_nat 3 - 1) * 100)%Q.
Proof.
  split; [reflexivity |]. split; [reflexivity |].
  exact (proj2 (proj2 (proj2 (proj1 compute_percentiles_by_rank three_users
                                    eq_refl)))
               1%nat "b"%string (mkUser "pw" 1200 None Female [] 0) eq_refl).
Defined.

(** C10: among two or more participants every one gets a percentile and
    no two get the same; of two participants with equal ratings the one
    that comes first in the dict gets the lower rank and the lower
    percentile, and every rank between theirs goes to a participant of
    that same rating. *)
Theorem percentiles_distinct :
  forall users,
    Dict.wf users = true -> (2 <= List.length users)%nat ->
    (forall e, In e (Dict.keys users) ->
               exists p, Dict.get (compute_percentiles users) e = Some p)
    /\ (forall e1 e2 p1 p2,
          e1 <> e2 ->
          Dict.get (compute_percentiles users) e1 = Some p1 ->
          Dict.get (compute_percentiles users) e2 = Some p2 ->
          ~ (p1 == p2)%Q)
    /\ (forall e1 d1 e2 d2,
          before (e1, d1) (e2, d2) users -> elo d1 = elo d2 ->
          exists r1 r2,
            (r1 < r2)%nat
            /\ nth_error (sorted_by by_elo users) r1 = Some (e1, d1)
            /\ nth_error (sorted_by by_elo users) r2 = Some (e2, d2)
            /\ Dict.get (compute_percentiles users) e1
               = Some (percentile_of r1 (List.length users))
            /\ Dict.get (compute_percentiles users) e2
               = Some (percentile_of r2 (List.length users))
            /\ (percentile_of r1 (List.length users)
                < percentile_of r2 (List.length users))%Q
            /\ forall r, (r1 <= r <= r2)%nat ->
                 exists e d, nth_error (sorted_by by_elo users) r = Some (e, d)
                             /\ elo d = elo d1).
Proof.
  intros users Hwf HN. split; [| split].
  - intros e He.
    assert (Hin : In e (map fst (sorted_by by_elo users))).
    { eapply Permutation_in; [| exact He].
      apply Permutation_map, Permutation_sym, sorted_by_perm. }
    apply in_map_iff in Hin. destruct Hin as [[e' d] [<- Hin]].
    apply In_nth_error in Hin. destruct Hin as [r Hr].
    eexists. now apply compute_percentiles_rank with (d := d) (r := r).
  - intros e1 e2 p1 p2 Hne H1 H2 Heq.
    apply compute_percentiles_get in H1, H2; try assumption.
    destruct H1 as (r1 & d1 & Hr1 & ->), H2 as (r2 & d2 & Hr2 & ->).
    apply percentile_of_inj in Heq; [| assumption]. subst r2. congruence.
  - intros e1 d1 e2 d2 Hbefore Htie.
    assert (Hb : before (e1, d1) (e2, d2) (sorted_by by_elo users)).
    { apply filter_before with (f := fun y => (by_elo y =? elo d1)%Z).
      rewrite sorted_by_stable. apply before_filter; [assumption | |].
      - unfold by_elo. cbn [snd]. apply Z.eqb_refl.
      - unfold by_elo. cbn [snd]. rewrite Htie. apply Z.eqb_refl. }
    apply before_nth_error in Hb. destruct Hb as (r1 & r2 & Hlt & Hr1 & Hr2).
    exists r1, r2. repeat match goal with |- _ /\ _ => split end;
      try assumption.
    + now apply compute_percentiles_rank with (d := d1).
    + now apply compute_percentiles_rank with (d := d2).
    + now apply percentile_of_lt.
    + intros r [Hlo Hhi].
      assert (Hlen : (r < List.length (sorted_by by_elo users))%nat).
      { assert (H2 : (r2 < List.length (sorted_by by_elo users))%nat)
          by (apply nth_error_Some; congruence).
        lia. }
      apply nth_error_Some in Hlen.
      destruct (nth_error (sorted_by by_elo users) r) as [[e d] |] eqn:Hr;
        [| congruence].
      exists e, d. split; [reflexivity |].
      pose proof (sorted_by_sorted _ by_elo users) as Hs.
      assert (Hge : (elo d1 <= elo d)%Z).
      { destruct (Nat.eq_dec r1 r) as [-> | Hne]; [rewrite Hr in Hr1; injection Hr1 as _ <-; lia |].
        assert (Hr1r : (r1 < r)%nat) by lia.
        exact (sorted_nth_le _ _ _ r1 r _ _ Hs Hr1r Hr1 Hr). }
      assert (Hle : (elo d <= elo d2)%Z).
      { destruct (Nat.eq_dec r r2) as [-> | Hne]; [rewrite Hr in Hr2; injection Hr2 as _ <-; lia |].
        assert (Hrr2 : (r < r2)%nat) by lia.
        exact (sorted_nth_le _ _ _ r r2 _ _ Hs Hrr2 Hr Hr2). }
      lia.
Qed.

Lemma percentiles_distinct_witness :
  Dict.wf tied_users = true /\ (2 <= List.length tied_users)%nat
  /\ exists r1 r2,
       (r1 < r2)%nat
       /\ Dict.get (compute_percentiles tied_users) "y"
          = Some (percentile_of r1 (List.length tied_users))
       /\ Dict.get (compute_percentiles tied_users) "x"
          = Some (percentile_of r2 (List.length tied_users))
       /\ (percentile_of r1 (List.length tied_users)
           < percentile_of r2 (List.length tied_users))%Q.
Proof.
  split; [reflexivity |]. split; [vm_compute; lia |].
  destruct (proj2 (proj2 (percentiles_distinct tied_users eq_refl
                            ltac:(vm_compute; lia)))
              "y"%string (mkUser "pw" 1200 None Male [] 0)
              "x"%string (mkUser "pw" 1200 None Male [] 0))
    as (r1 & r2 & Hlt & _ & _ & H1 & H2 & Hp & _).
  - exists [], [("z"%string, mkUser "pw" 1300 None Male [] 0)],
           [("w"%string, mkUser "pw" 1100 None Male [] 0)]. reflexivity.
  - reflexivity.
  - exists r1, r2. repeat split; assumption.
Defined.

End Claims.

(** * Further properties of the code *)

(** ** Rating engine: direction and size of an update *)

Section RatingEngineMore.

Local Open Scope R_scope.











End RatingEngineMore.

(** ** Percentiles: range, order, bands, and the statistics page *)

Section PercentileMore.

Lemma Qltb_lt (p q : Q) : Qltb p q = true <-> (p < q)%Q.
Proof.
  unfold Qltb. rewrite negb_true_iff. split.
  - intros H. apply Qnot_le_lt. intros Hle. apply Qle_bool_iff in Hle. congruence.
  - intros H. destruct (Qle_bool q p) eqn:E; [| reflexivity].
    apply Qle_bool_iff in E. exfalso. exact (Qlt_not_le _ _ H E).
Qed.

(** The percentile of a rank as one fraction. *)
Lemma percentile_of_fraction (N r : nat) :
  (2 <= N)%nat ->
  (percentile_of r N == (100 * Z.of_nat r) # Z.to_pos (Z.of_nat N - 1))%Q.
Proof.
  intros HN. unfold percentile_of.
  replace (1 <? N)%nat with true by (symmetry; apply Nat.ltb_lt; lia).
  destruct (Z.of_nat N - 1)%Z as [| z | z] eqn:Ez; try lia.
  unfold Qeq, Qdiv, Qmult, Qinv, inject_Z. cbn [Qnum Qden Z.to_pos].
  rewrite Pos.mul_1_l, Pos.mul_1_r. ring.
Qed.

(** Comparing a percentile with an integer bound is comparing integers. *)
Lemma percentile_of_below (N r : nat) (c : Z) :
  (2 <= N)%nat ->
  ((percentile_of r N < inject_Z c)%Q
   <-> (100 * Z.of_nat r < c * (Z.of_nat N - 1))%Z).
Proof.
  intros HN. rewrite (percentile_of_fraction N r HN).
  unfold Qlt, inject_Z. cbn [Qnum Qden].
  rewrite Z2Pos.id by lia. lia.
Qed.

Lemma percentile_of_range (N r : nat) :
  (r < N)%nat -> (0 <= percentile_of r N <= 100)%Q.
Proof.
  intros Hr. destruct (Nat.le_gt_cases 2 N) as [HN | HN].
  - rewrite (percentile_of_fraction N r HN).
    unfold Qle. cbn [Qnum Qden]. rewrite Z2Pos.id by lia. split; lia.
  - unfold percentile_of.
    replace (1 <? N)%nat with false by (symmetry; apply Nat.ltb_ge; lia).
    split; discriminate.
Qed.

Lemma nth_error_lt (A : Type) (l : list A) (n : nat) (x : A) :
  nth_error l n = Some x -> (n < List.length l)%nat.
Proof. intros H. apply nth_error_Some. congruence. Qed.

(** X4: every percentile of the returned dict lies between 0 and 100; among
    two or more participants the first of the ascending order gets 0 and
    the last gets 100. *)
Theorem percentiles_range (users : users_t) :
  Dict.wf users = true ->
  (forall e p, Dict.get (compute_percentiles users) e = Some p ->
               (0 <= p <= 100)%Q)
  /\ ((2 <= List.length users)%nat ->
      forall e d p,
        Dict.get (compute_percentiles users) e = Some p ->
        (nth_error (sorted_by by_elo users) 0 = Some (e, d) -> (p == 0)%Q)
        /\ (nth_error (sorted_by by_elo users) (List.length users - 1)
            = Some (e, d) -> (p == 100)%Q)).
Proof.
  intros Hwf. split.
  - intros e p Hget. apply compute_percentiles_get in Hget; [| assumption].
    destruct Hget as (r & d & Hr & ->). apply percentile_of_range.
    apply nth_error_lt in Hr. now rewrite sorted_by_length in Hr.
  - intros HN e d p Hget. split; intros Hr.
    + rewrite (compute_percentiles_rank _ _ _ _ Hwf Hr) in Hget.
      injection Hget as <-. rewrite (percentile_of_fraction _ _ HN).
      reflexivity.
    + rewrite (compute_percentiles_rank _ _ _ _ Hwf Hr) in Hget.
      injection Hget as <-. rewrite (percentile_of_fraction _ _ HN).
      unfold Qeq. cbn [Qnum Qden inject_Z]. rewrite Z2Pos.id by lia. lia.
Qed.

Lemma percentiles_range_witness :
  Dict.wf three_users = true
  /\ (2 <= List.length three_users)%nat
  /\ Dict.get (compute_percentiles three_users) "c" = Some (200 # 2)%Q
  /\ (200 # 2 == 100)%Q /\ (0 <= 200 # 2 <= 100)%Q.
Proof.
  assert (Hg : Dict.get (compute_percentiles three_users) "c"
               = Some (200 # 2)%Q) by reflexivity.
  split; [reflexivity |]. split; [vm_compute; lia |]. split; [exact Hg |].
  split.
  - apply (proj2 (proj2 (percentiles_range three_users eq_refl)
                        ltac:(vm_compute; lia) "c"%string
                        (mkUser "pw" 1400 (Some "uploads/c.jpg"%string) Male
                                [] 7)
                        _ Hg)).
    reflexivity.
  - exact (proj1 (percentiles_range three_users eq_refl) "c"%string _ Hg).
Defined.

(** X5: of two participants the one with the strictly higher rating gets
    the strictly higher percentile. *)
Theorem percentile_monotone (users : users_t) (e1 e2 : string)
    (d1 d2 : user) (p1 p2 : Q) :
  Dict.wf users = true ->
  In (e1, d1) users -> In (e2, d2) users ->
  (elo d1 < elo d2)%Z ->
  Dict.get (compute_percentiles users) e1 = Some p1 ->
  Dict.get (compute_percentiles users) e2 = Some p2 ->
  (p1 < p2)%Q.
Proof.
  intros Hwf H1 H2 Hlt G1 G2.
  pose proof (sorted_by_perm _ by_elo users) as Hperm.
  apply (Permutation_in _ (Permutation_sym Hperm)) in H1, H2.
  apply In_nth_error in H1, H2. destruct H1 as [r1 Hr1], H2 as [r2 Hr2].
  rewrite (compute_percentiles_rank _ _ _ _ Hwf Hr1) in G1.
  rewrite (compute_percentiles_rank _ _ _ _ Hwf Hr2) in G2.
  injection G1 as <-. injection G2 as <-.
  pose proof (sorted_by_sorted _ by_elo users) as Hs.
  assert (Hr : (r1 < r2)%nat).
  { destruct (Nat.lt_total r1 r2) as [H | [H | H]]; [assumption | |].
    - subst r2. rewrite Hr1 in Hr2. injection Hr2 as _ <-. lia.
    - pose proof (sorted_nth_le _ _ _ _ _ _ _ Hs H Hr2 Hr1) as Hle.
      unfold key_le, by_elo in Hle. cbn [snd] in Hle. lia. }
  apply percentile_of_lt; [| assumption].
  apply nth_error_lt in Hr2. rewrite sorted_by_length in Hr2. lia.
Qed.

Lemma percentile_monotone_witness :
  exists p1 p2,
    Dict.get (compute_percentiles three_users) "a" = Some p1
    /\ Dict.get (compute_percentiles three_users) "b" = Some p2
    /\ (p1 < p2)%Q.
Proof.
  exists (0 # 2)%Q, (100 # 2)%Q. split; [reflexivity |]. split; [reflexivity |].
  apply (percentile_monotone three_users "a"%string "b"%string
           (mkUser "pw" 1000 (Some "uploads/a.jpg"%string) Female [] 2)
           (mkUser "pw" 1200 None Female [] 0)).
  - reflexivity.
  - right. right. left. reflexivity.
  - left. reflexivity.
  - cbn. lia.
  - reflexivity.
  - reflexivity.
Defined.

Lemma Qltb_percentile_of (N r : nat) (c : Z) :
  (2 <= N)%nat ->
  Qltb (percentile_of r N) (inject_Z c)
  = (100 * Z.of_nat r <? c * (Z.of_nat N - 1))%Z.
Proof.
  intros HN. apply eq_true_iff_eq.
  now rewrite Qltb_lt, Z.ltb_lt, (percentile_of_below N r c HN).
Qed.

(** X6: among [N >= 2] participants the one of rank [r] is told "Room for
    improvement" exactly when fewer than half of the others stand below,
    [2 r < N - 1], and "Elite tier" exactly when at least nine tenths of
    the others do, [9 (N - 1) <= 10 r]; a sole participant is told "Elite
    tier". *)
Theorem description_by_rank (N r : nat) :
  ((2 <= N)%nat ->
   (percentile_description (percentile_of r N)
    = "Room for improvement — the good thing is, things change fast."%string
    <-> (2 * Z.of_nat r < Z.of_nat N - 1)%Z)
   /\ (percentile_description (percentile_of r N)
       = "Elite tier — very few reach here."%string
       <-> (9 * (Z.of_nat N - 1) <= 10 * Z.of_nat r)%Z))
  /\ ((N <= 1)%nat ->
      percentile_description (percentile_of r N)
      = "Elite tier — very few reach here."%string).
Proof.
  split.
  - intros HN. unfold percentile_description.
    change 50%Q with (inject_Z 50). change 60%Q with (inject_Z 60).
    change 70%Q with (inject_Z 70). change 80%Q with (inject_Z 80).
    change 90%Q with (inject_Z 90).
    rewrite !(Qltb_percentile_of N r _ HN).
    destruct (Z.ltb_spec (100 * Z.of_nat r) (50 * (Z.of_nat N - 1)));
      [split; split; intros; try reflexivity; try discriminate; lia |].
    destruct (Z.ltb_spec (100 * Z.of_nat r) (60 * (Z.of_nat N - 1)));
      [split; split; intros; try discriminate; lia |].
    destruct (Z.ltb_spec (100 * Z.of_nat r) (70 * (Z.of_nat N - 1)));
      [split; split; intros; try discriminate; lia |].
    destruct (Z.ltb_spec (100 * Z.of_nat r) (80 * (Z.of_nat N - 1)));
      [split; split; intros; try discriminate; lia |].
    destruct (Z.ltb_spec (100 * Z.of_nat r) (90 * (Z.of_nat N - 1)));
      [split; split; intros; try discriminate; lia |].
    split; split; intros; try reflexivity; try discriminate; lia.
  - intros HN. unfold percentile_of.
    replace (1 <? N)%nat with false by (symmetry; apply Nat.ltb_ge; lia).
    reflexivity.
Qed.

Lemma description_by_rank_witness :
  (2 <= 5)%nat
  /\ percentile_description (percentile_of 1 5)
     = "Room for improvement — the good thing is, things change fast."%string
  /\ percentile_description (percentile_of 4 5)
     = "Elite tier — very few reach here."%string.
Proof.
  split; [lia |]. split.
  - apply (proj1 (proj1 (description_by_rank 5 1) ltac:(lia))). lia.
  - apply (proj2 (proj1 (description_by_rank 5 4) ltac:(lia))). lia.
Defined.

(** X7: for a registered user of a well-formed dict the statistics page
    raises nothing: without a photo it asks for one, with a photo and
    fewer than 6 matches it shows the progress, and otherwise it shows the
    user's rating with the user's percentile, which lies between 0 and
    100, and the band of that percentile.  For an unknown user it raises
    [KeyError]. *)
Theorem stats_page_cases (users : users_t) (v : string) :
  (Dict.get users v = None -> stats_page users v = KeyError v)
  /\ (forall me,
        Dict.wf users = true -> Dict.get users v = Some me ->
        (pic me = None -> stats_page users v = Ok StatsNeedPhoto)
        /\ (pic me <> None -> (matches_played me < 6)%Z ->
            stats_page users v = Ok (StatsProgress (matches_played me)))
        /\ (pic me <> None -> (6 <= matches_played me)%Z ->
            exists p,
              Dict.get (compute_percentiles users) v = Some p
              /\ (0 <= p <= 100)%Q
              /\ stats_page users v
                 = Ok (StatsShown (elo me) p (percentile_description p)))).
Proof.
  split.
  - intros Hn. unfold stats_page, Dict.lookup. now rewrite Hn.
  - intros me Hwf Hme. unfold stats_page, Dict.lookup. rewrite Hme.
    cbn [bind]. unfold MIN_MATCHES_FOR_STATS.
    destruct (pic me) as [path |]; (split; [| split]).
    + discriminate.
    + intros _ Hlt. apply Z.ltb_lt in Hlt. now rewrite Hlt.
    + intros _ Hge. apply Z.ltb_ge in Hge. rewrite Hge.
      apply get_some_in in Hme. apply (in_map fst) in Hme.
      assert (Hin : In v (map fst (sorted_by by_elo users))).
      { eapply Permutation_in; [| exact Hme].
        apply Permutation_map, Permutation_sym, sorted_by_perm. }
      apply in_map_iff in Hin. destruct Hin as [[e d] [He Hin]].
      cbn [fst] in He. subst e.
      apply In_nth_error in Hin. destruct Hin as [r Hr].
      exists (percentile_of r (List.length users)).
      rewrite (compute_percentiles_rank _ _ _ _ Hwf Hr). cbn [bind].
      split; [reflexivity |]. split; [| reflexivity].
      apply percentile_of_range.
      apply nth_error_lt in Hr. now rewrite sorted_by_length in Hr.
    + reflexivity.
    + intros Hp. now contradiction Hp.
    + intros Hp. now contradiction Hp.
Qed.

Lemma stats_page_cases_witness :
  Dict.wf three_users = true
  /\ stats_page three_users "b" = Ok StatsNeedPhoto
  /\ stats_page three_users "a" = Ok (StatsProgress 2)
  /\ exists p, stats_page three_users "c"
               = Ok (StatsShown 1400 p (percentile_description p)).
Proof.
  destruct (stats_page_cases three_users "b") as [_ Hb].
  destruct (stats_page_cases three_users "a") as [_ Ha].
  destruct (stats_page_cases three_users "c") as [_ Hc].
  split; [reflexivity |]. split; [| split].
  - apply (proj1 (Hb _ eq_refl eq_refl)). reflexivity.
  - apply (proj1 (proj2 (Ha _ eq_refl eq_refl))); [discriminate | cbn; lia].
  - destruct (proj2 (proj2 (Hc _ eq_refl eq_refl))) as (p & _ & _ & Hp);
      [discriminate | cbn; lia |].
    exists p. exact Hp.
Defined.

End PercentileMore.

(** ** Matchmaker: the enumeration of the pairs *)

Section MatchmakerMore.

Lemma sorted2_inj_r (x y y' : string) : sorted2 x y = sorted2 x y' -> y = y'.
Proof.
  intros H.
  destruct (sorted2_members x y) as [[F S] | [F S]],
           (sorted2_members x y') as [[F' S'] | [F' S']];
    rewrite H in F, S; congruence.
Qed.

Lemma sorted2_holds_l (x y : string) :
  fst (sorted2 x y) = x \/ snd (sorted2 x y) = x.
Proof. destruct (sorted2_members x y) as [[F S] | [F S]]; tauto. Qed.

Lemma enumerate_pairs_length (el : list string) :
  (2 * List.length (enumerate_pairs el)
   = List.length el * (List.length el - 1))%nat.
Proof.
  induction el as [| x r IH]; [reflexivity |].
  cbn [enumerate_pairs List.length]. rewrite length_app, length_map.
  destruct r as [| y r']; [reflexivity |].
  cbn [List.length] in *. nia.
Qed.

Lemma enumerate_pairs_NoDup (el : list string) :
  NoDup el -> NoDup (enumerate_pairs el).
Proof.
  induction 1 as [| x r Hni Hnd IH]; cbn [enumerate_pairs]; [constructor |].
  apply NoDup_app.
  - clear IH Hni. induction Hnd as [| y r' Hy Hnd' IH']; cbn [map];
      constructor; [| assumption].
    intros Hin. apply in_map_iff in Hin. destruct Hin as [y' [Heq Hin]].
    apply sorted2_inj_r in Heq. now subst y'.
  - assumption.
  - intros p Hp Hq. apply in_map_iff in Hp. destruct Hp as [y [<- Hy]].
    apply enumerate_pairs_members in Hq. destruct Hq as [Hf Hs].
    destruct (sorted2_holds_l x y) as [E | E]; rewrite E in *; contradiction.
Qed.

(** X8: [n] eligible participants give [n (n - 1) / 2] pairs to go
    through; the pairs of a dict with distinct keys are all different, so
    that the candidate list from which [random.choice] draws holds every
    candidate once and never more than [n (n - 1) / 2] of them. *)
Theorem pair_enumeration (users : users_t) (tried : list pair_t)
    (v : string) (g : gender_t) :
  let el := eligible users v g in
  (2 * List.length (enumerate_pairs el)
   = List.length el * (List.length el - 1))%nat
  /\ (2 * List.length (candidates users tried el)
      <= List.length el * (List.length el - 1))%nat
  /\ (Dict.wf users = true ->
      NoDup (enumerate_pairs el) /\ NoDup (candidates users tried el)).
Proof.
  intros el. split; [apply enumerate_pairs_length |]. split.
  - rewrite <- enumerate_pairs_length. unfold candidates.
    pose proof (filter_length_le _ (is_candidate users tried)
                                 (enumerate_pairs el)). lia.
  - intros Hwf.
    assert (Hnd : NoDup (enumerate_pairs el))
      by (apply enumerate_pairs_NoDup, eligible_NoDup, Hwf).
    split; [assumption |]. unfold candidates. now apply NoDup_filter.
Qed.

Lemma pair_enumeration_witness :
  Dict.wf crowd = true
  /\ NoDup (candidates crowd [] (eligible crowd "v" Male)).
Proof.
  split; [reflexivity |].
  exact (proj2 (proj2 (proj2 (pair_enumeration crowd [] "v"%string Male))
                      eq_refl)).
Defined.

End MatchmakerMore.

(** ** The voting page: errors, and what a vote leaves alone *)

Section PageMore.

(** A run that ends as a vote went through the limiter and the
    matchmaker and found a button pressed. *)
Lemma vote_page_voted_inv (st st' : store) (v : string) (now : Z) (rnd : nat)
    (left right won : bool) (a b : string) :
  vote_page st v now rnd left right = Ok (Voted a b won, st') ->
  exists me votes',
    Dict.get (users_file st) v = Some me
    /\ limit_reached (prune_vote_times now (vote_times me)) = false
    /\ select_pair (users_file st) (votes_file st) v (gender me) rnd
       = Ok (Pair a b, votes')
    /\ left || right = true.
Proof.
  destruct (Dict.get (users_file st) v) as [me |] eqn:Hme.
  2: { unfold vote_page, Dict.lookup. rewrite Hme. discriminate. }
  rewrite (vote_page_closed _ _ _ _ _ _ _ Hme). cbv zeta.
  destruct (limit_reached _) eqn:Hlim; [discriminate |].
  destruct (select_pair _ _ v (gender me) rnd) as [[sel votes'] |] eqn:Hsel;
    cbn [bind fst snd]; [| discriminate].
  destruct sel as [| | a' b']; try discriminate.
  intros H. exists me, votes'.
  assert (Hab : a' = a /\ b' = b /\ left || right = true).
  { destruct left; [| destruct right].
    - destruct (cast_vote _ _ _ _ _ _ _); [| discriminate].
      cbn [bind] in H. injection H as -> -> _ _. tauto.
    - destruct (cast_vote _ _ _ _ _ _ _); [| discriminate].
      cbn [bind] in H. injection H as -> -> _ _. tauto.
    - discriminate. }
  destruct Hab as (-> & -> & Hclick). tauto.
Qed.

(** X9: the voting page raises [KeyError] for a user the dict does not
    hold, and for a user it holds, the keys being distinct, it raises
    nothing, whatever the clock, the draw and the buttons. *)
Theorem vote_page_key_error (st : store) (v : string) (now : Z) (rnd : nat)
    (left right : bool) :
  (Dict.get (users_file st) v = None ->
   vote_page st v now rnd left right = KeyError v)
  /\ (Dict.wf (users_file st) = true ->
      forall me, Dict.get (users_file st) v = Some me ->
                 exists o st', vote_page st v now rnd left right = Ok (o, st')).
Proof.
  split.
  - intros Hn. unfold vote_page, Dict.lookup. now rewrite Hn.
  - intros Hwf me Hme.
    destruct (limit_reached (prune_vote_times now (vote_times me))) eqn:Hlim.
    { rewrite (vote_page_closed _ _ _ _ _ _ _ Hme). cbv zeta. rewrite Hlim.
      eexists; eexists; reflexivity. }
    destruct (select_pair (users_file st) (votes_file st) v (gender me) rnd)
      as [[sel votes'] | k] eqn:Hsel.
    2: { rewrite select_pair_closed in Hsel. discriminate. }
    destruct sel as [| | a b].
    + rewrite (vote_page_closed _ _ _ _ _ _ _ Hme). cbv zeta.
      rewrite Hlim, Hsel. eexists; eexists; reflexivity.
    + rewrite (vote_page_closed _ _ _ _ _ _ _ Hme). cbv zeta.
      rewrite Hlim, Hsel. eexists; eexists; reflexivity.
    + destruct (left || right) eqn:Hclick.
      * destruct (vote_page_voted st v now rnd left right me a b votes'
                    Hwf Hme Hlim Hsel Hclick)
          as (ua & ub & st' & _ & _ & _ & _ & _ & _ & _ & Hrun & _).
        eexists; eexists; exact Hrun.
      * apply orb_false_iff in Hclick. destruct Hclick as [-> ->].
        rewrite (vote_page_closed _ _ _ _ _ _ _ Hme). cbv zeta.
        rewrite Hlim, Hsel. eexists; eexists; reflexivity.
Qed.

Lemma vote_page_key_error_witness :
  vote_page duel_store "nobody" 0 0 true false = KeyError "nobody"
  /\ exists o st', vote_page duel_store "V" 0 0 true false = Ok (o, st').
Proof.
  split.
  - apply (proj1 (vote_page_key_error duel_store "nobody"%string 0%Z 0%nat
                                      true false)).
    reflexivity.
  - apply (proj2 (vote_page_key_error duel_store "V"%string 0%Z 0%nat
                                      true false) eq_refl
                 (new_user "v" Male)).
    reflexivity.
Defined.

(** A run that ends as a vote is a recorded vote. *)
Lemma vote_page_recorded (st st' : store) (v : string) (now : Z) (rnd : nat)
    (left right won : bool) (a b : string) :
  Dict.wf (users_file st) = true ->
  vote_page st v now rnd left right = Ok (Voted a b won, st') ->
  exists me ua ub, vote_recorded st st' v now left a b me ua ub.
Proof.
  intros Hwf Hrun.
  destruct (vote_page_voted_inv _ _ _ _ _ _ _ _ _ _ Hrun)
    as (me & votes' & Hme & Hlim & Hsel & Hclick).
  destruct (vote_page_voted st v now rnd left right me a b votes'
              Hwf Hme Hlim Hsel Hclick)
    as (ua & ub & st1 & Hua & Hub & Hab & Hav & Hbv & Hsorted & Hnew & Hrun1
        & [Ga Gb] & Gv & Hhist & Gother & _ & Gkeys).
  rewrite Hrun in Hrun1. injection Hrun1 as _ <-.
  destruct (select_pair_candidate _ _ _ _ _ _ _ _ Hsel) as [Hcand ->].
  apply candidates_In in Hcand. destruct Hcand as (Henum & _ & _).
  apply enumerate_pairs_members in Henum. cbn [fst snd] in Henum.
  destruct Henum as [Hael Hbel].
  apply eligible_In in Hael, Hbel.
  destruct Hael as (ra & Hra & Hpa & _ & Hga).
  destruct Hbel as (rb & Hrb & Hpb & _ & Hgb).
  rewrite (in_wf_get _ _ _ Hwf Hra) in Hua. injection Hua as ->.
  rewrite (in_wf_get _ _ _ Hwf Hrb) in Hub. injection Hub as ->.
  exists me, ua, ub. unfold vote_recorded. cbv zeta.
  repeat match goal with |- _ /\ _ => split end;
    try assumption; try (now apply in_wf_get).
  (* the votes dict *)
  rewrite (vote_page_closed _ _ _ _ _ _ _ Hme) in Hrun. cbv zeta in Hrun.
  rewrite Hlim, Hsel in Hrun. cbn [bind fst snd] in Hrun.
  assert (Hcast : exists sa,
             cast_vote (Dict.set (users_file st) v
                          (set_vote_times
                             (prune_vote_times now (vote_times me)) me))
                       (ensure_history (votes_file st) v) v now a b sa
             = Ok st').
  { destruct left; [| destruct right; [| discriminate Hrun]].
    - exists 1%R. destruct (cast_vote _ _ _ _ _ _ _); [| discriminate].
      cbn [bind] in Hrun. now injection Hrun as _ ->.
    - exists 0%R. destruct (cast_vote _ _ _ _ _ _ _); [| discriminate].
      cbn [bind] in Hrun. now injection Hrun as _ ->. }
  destruct Hcast as [sa Hcast]. apply cast_vote_votes in Hcast.
  destruct Hcast as (h & Hh & Hv). rewrite get_ensure_history in Hh.
  injection Hh as <-. rewrite Hv, Hsorted. reflexivity.
Qed.

(** A request changes nothing or records a vote of its user. *)
Lemma serve_cases (st : store) (q : request) :
  Dict.wf (users_file st) = true ->
  serve st q = st
  \/ exists a b me ua ub,
       vote_recorded st (serve st q) (req_user q) (req_now q) (req_left q)
                     a b me ua ub.
Proof.
  intros Hwf. unfold serve.
  destruct (vote_page st (req_user q) (req_now q) (req_rnd q) (req_left q)
                      (req_right q)) as [[o st'] | k] eqn:Hrun; [| now left].
  destruct o as [| | | a b | a b won];
    try (left; apply vote_page_files in Hrun; exact Hrun).
  right. destruct (vote_page_recorded _ _ _ _ _ _ _ _ _ _ Hwf Hrun)
    as (me & ua & ub & H).
  now exists a, b, me, ua, ub.
Qed.

Lemma vote_recorded_wf (st st' : store) (v : string) (now : Z) (left : bool)
    (a b : string) (me ua ub : user) :
  Dict.wf (users_file st) = true ->
  vote_recorded st st' v now left a b me ua ub ->
  Dict.wf (users_file st') = true.
Proof.
  intros Hwf H. unfold vote_recorded in H. cbv zeta in H.
  destruct H as (_ & _ & _ & _ & _ & _ & _ & _ & _ & _ & _ & _ & _ & _ & _ & _
                 & _ & Hkeys & _).
  apply wf_NoDup. rewrite Hkeys. now apply wf_NoDup.
Qed.

Lemma serve_wf (st : store) (q : request) :
  Dict.wf (users_file st) = true -> Dict.wf (users_file (serve st q)) = true.
Proof.
  intros Hwf. destruct (serve_cases st q Hwf) as [-> | (a & b & me & ua & ub & H)];
    [assumption |].
  eapply vote_recorded_wf; eassumption.
Qed.

Lemma record_vote_length (now : Z) (ts : list Z) :
  limit_reached (prune_vote_times now ts) = false ->
  (List.length (record_vote now ts) <= 15)%nat.
Proof.
  intros Hlim. unfold record_vote. rewrite length_app. cbn [List.length].
  destruct (Nat.le_gt_cases 15 (List.length (prune_vote_times now ts)))
    as [H | H]; [| lia].
  apply limit_reached_iff in H. congruence.
Qed.

(** What one request does to the record of a user. *)
Lemma serve_user (st : store) (q : request) (u : string) (r : user) :
  Dict.wf (users_file st) = true ->
  Dict.get (users_file st) u = Some r ->
  exists r',
    Dict.get (users_file (serve st q)) u = Some r'
    /\ password r' = password r /\ pic r' = pic r /\ gender r' = gender r
    /\ (matches_played r <= matches_played r' <= matches_played r + 1)%Z
    /\ ((List.length (vote_times r) <= 15)%nat ->
        (List.length (vote_times r') <= 15)%nat).
Proof.
  intros Hwf Hget.
  destruct (serve_cases st q Hwf) as [-> | (a & b & me & ua & ub & H)].
  { exists r. repeat split; try assumption; try reflexivity; lia. }
  unfold vote_recorded in H. cbv zeta in H.
  destruct H as (Hme & Hua & Hub & Hab & Hav & Hbv & _ & _ & _ & _ & Hlim & _
                 & _ & Ga & Gb & Gv & Gother & _).
  destruct (String.eqb_spec u a) as [-> | Hna].
  { rewrite Hua in Hget. injection Hget as <-. eexists. split; [exact Ga |].
    cbn. repeat split; try reflexivity; try lia; tauto. }
  destruct (String.eqb_spec u b) as [-> | Hnb].
  { rewrite Hub in Hget. injection Hget as <-. eexists. split; [exact Gb |].
    cbn. repeat split; try reflexivity; try lia; tauto. }
  destruct (String.eqb_spec u (req_user q)) as [-> | Hnv].
  { rewrite Hme in Hget. injection Hget as <-. eexists. split; [exact Gv |].
    cbn. repeat split; try reflexivity; try lia.
    intros _. now apply record_vote_length. }
  exists r. rewrite Gother by assumption.
  repeat split; try assumption; try reflexivity; lia.
Qed.

(** X10: an accepted vote is cast on two participants other than the
    voter, both with a photo and of the voter's gender, and it leaves the
    voter's own rating, match count, password, photo and gender as they
    were. *)
Theorem vote_rates_two_peers (st st' : store) (v : string) (now : Z)
    (rnd : nat) (left right won : bool) (a b : string) :
  Dict.wf (users_file st) = true ->
  vote_page st v now rnd left right = Ok (Voted a b won, st') ->
  exists me ua ub me',
    Dict.get (users_file st) v = Some me
    /\ Dict.get (users_file st) a = Some ua
    /\ Dict.get (users_file st) b = Some ub
    /\ a <> v /\ b <> v /\ a <> b
    /\ pic_truthy (pic ua) = true /\ pic_truthy (pic ub) = true
    /\ gender ua = gender me /\ gender ub = gender me
    /\ Dict.get (users_file st') v = Some me'
    /\ elo me' = elo me /\ matches_played me' = matches_played me
    /\ password me' = password me /\ pic me' = pic me
    /\ gender me' = gender me.
Proof.
  intros Hwf Hrun.
  destruct (vote_page_recorded _ _ _ _ _ _ _ _ _ _ Hwf Hrun)
    as (me & ua & ub & H).
  unfold vote_recorded in H. cbv zeta in H.
  destruct H as (Hme & Hua & Hub & Hab & Hav & Hbv & Hpa & Hpb & Hga & Hgb & _
                 & _ & _ & _ & _ & Gv & _).
  exists me, ua, ub, (set_vote_times (record_vote now (vote_times me)) me).
  repeat split; assumption.
Qed.

Lemma vote_rates_two_peers_witness :
  exists me ua ub me',
    Dict.get (users_file duel_store) "V" = Some me
    /\ Dict.get (users_file duel_store) "A" = Some ua
    /\ Dict.get (users_file duel_store) "B" = Some ub
    /\ gender ua = gender me /\ gender ub = gender me
    /\ Dict.get (users_file (duel_store_after 9)) "V" = Some me'
    /\ elo me' = elo me.
Proof.
  destruct (vote_rates_two_peers duel_store (duel_store_after 9) "V"%string
              9%Z 0%nat true false true "A"%string "B"%string eq_refl
              (duel_left_wins 9 0))
    as (me & ua & ub & me' & H).
  exists me, ua, ub, me'. tauto.
Defined.

(** X11: voting neither adds nor removes a user and never changes a
    password, a photo or a gender; match counts only grow. *)
Theorem voting_keeps_accounts (qs : list request) (st : store) :
  Dict.wf (users_file st) = true ->
  Dict.wf (users_file (serve_all st qs)) = true
  /\ (forall u r,
        Dict.get (users_file st) u = Some r ->
        exists r',
          Dict.get (users_file (serve_all st qs)) u = Some r'
          /\ password r' = password r /\ pic r' = pic r
          /\ gender r' = gender r
          /\ (matches_played r <= matches_played r')%Z)
  /\ (forall u, Dict.get (users_file st) u = None ->
                Dict.get (users_file (serve_all st qs)) u = None).
Proof.
  revert st. induction qs as [| q rest IH]; intros st Hwf.
  - cbn. split; [assumption |]. split; [| tauto].
    intros u r Hget. exists r. repeat split; try assumption; lia.
  - unfold serve_all in *. cbn [fold_left].
    destruct (IH (serve st q) (serve_wf st q Hwf)) as (Hwf' & Hsome & Hnone).
    split; [assumption |]. split.
    + intros u r Hget.
      destruct (serve_user st q u r Hwf Hget)
        as (r1 & G1 & Hp1 & Hi1 & Hg1 & Hm1 & _).
      destruct (Hsome u r1 G1) as (r' & G' & Hp & Hi & Hg & Hm).
      exists r'. repeat split; try congruence. lia.
    + intros u Hget. apply Hnone.
      destruct (serve_cases st q Hwf) as [-> | (a & b & me & ua & ub & H)];
        [assumption |].
      unfold vote_recorded in H. cbv zeta in H.
      destruct H as (Hme & Hua & Hub & _ & _ & _ & _ & _ & _ & _ & _ & _ & _
                     & _ & _ & _ & Gother & _).
      rewrite Gother; [assumption | congruence | congruence | congruence].
Qed.

Lemma voting_keeps_accounts_witness :
  Dict.wf (users_file duel_store) = true
  /\ exists r',
       Dict.get (users_file
                   (serve_all duel_store [mkRequest "V" 5 0 true false]))
                "A" = Some r'
       /\ pic r' = Some "uploads/A.jpg"%string.
Proof.
  split; [reflexivity |].
  destruct (proj1 (proj2 (voting_keeps_accounts
                            [mkRequest "V" 5 0 true false] duel_store eq_refl))
              "A"%string (with_pic "uploads/A.jpg" (new_user "a" Male)) eq_refl)
    as (r' & G & _ & Hp & _).
  exists r'. split; assumption.
Defined.

(** X12: a vote is accepted only when it leaves at most 15 timestamps, all
    less than an hour old, in the voter's list; and if no stored list is
    longer than 15 then none is after any requests. *)
Theorem vote_times_bounded :
  (forall now ts,
     limit_reached (prune_vote_times now ts) = false ->
     (List.length (record_vote now ts) <= 15)%nat
     /\ forall t, In t (record_vote now ts) -> (now - t < HOUR)%Z)
  /\ (forall qs st,
        Dict.wf (users_file st) = true ->
        (forall u r, Dict.get (users_file st) u = Some r ->
                     (List.length (vote_times r) <= 15)%nat) ->
        forall u r,
          Dict.get (users_file (serve_all st qs)) u = Some r ->
          (List.length (vote_times r) <= 15)%nat).
Proof.
  split.
  - intros now ts Hlim. split; [now apply record_vote_length |].
    intros t Hin. unfold record_vote in Hin. apply in_app_or in Hin.
    destruct Hin as [Hin | [<- | []]].
    + now apply prune_In in Hin.
    + unfold HOUR. lia.
  - induction qs as [| q rest IH]; intros st Hwf Hall u r Hget.
    + cbn in Hget. eapply Hall. eassumption.
    + unfold serve_all in *. cbn [fold_left] in Hget.
      apply (IH (serve st q) (serve_wf st q Hwf)) with (u := u);
        [| assumption].
      intros u1 r1 G1.
      destruct (Dict.get (users_file st) u1) as [r0 |] eqn:G0.
      * destruct (serve_user st q u1 r0 Hwf G0) as (r' & G' & _ & _ & _ & _ & Hb).
        rewrite G1 in G'. injection G' as <-. apply Hb. eapply Hall. eassumption.
      * destruct (serve_cases st q Hwf) as [E | (a & b & me & ua & ub & H)].
        { rewrite E in G1. congruence. }
        unfold vote_recorded in H. cbv zeta in H.
        destruct H as (Hme & Hua & Hub & _ & _ & _ & _ & _ & _ & _ & _ & _ & _
                       & _ & _ & _ & Gother & _).
        rewrite Gother in G1; congruence.
Qed.

Lemma vote_times_bounded_witness :
  limit_reached (prune_vote_times 20 [1; 2; 3]%Z) = false
  /\ (List.length (record_vote 20 [1; 2; 3]%Z) <= 15)%nat.
Proof.
  split; [reflexivity |].
  apply (proj1 vote_times_bounded 20%Z [1; 2; 3]%Z). reflexivity.
Defined.

Lemma sum_over_ext_in (g g' : string -> Z) (ks : list string) :
  (forall k, In k ks -> g' k = g k) -> sum_over g' ks = sum_over g ks.
Proof.
  induction ks as [| k r IH]; intros H; [reflexivity |].
  cbn [sum_over fold_right]. fold (sum_over g' r). fold (sum_over g r).
  rewrite (H k) by now left. rewrite IH; [reflexivity |].
  intros k' Hk'. apply H. now right.
Qed.

Lemma sum_over_one (g g' : string -> Z) (ks : list string) (a : string) :
  NoDup ks -> In a ks ->
  (forall k, In k ks -> k <> a -> g' k = g k) ->
  (sum_over g' ks = sum_over g ks + (g' a - g a))%Z.
Proof.
  induction 1 as [| k r Hni Hnd IH]; intros Hin Hext; [contradiction |].
  cbn [sum_over fold_right]. fold (sum_over g' r). fold (sum_over g r).
  destruct Hin as [-> | Hin].
  - rewrite (sum_over_ext_in g g' r); [lia |].
    intros k Hk. apply Hext; [now right | congruence].
  - rewrite IH; [| assumption | intros; apply Hext; [now right | assumption]].
    rewrite (Hext k); [lia | now left | congruence].
Qed.

Lemma sum_over_two (g g' : string -> Z) (ks : list string) (a b : string) :
  NoDup ks -> In a ks -> In b ks -> a <> b ->
  (forall k, In k ks -> k <> a -> k <> b -> g' k = g k) ->
  (sum_over g' ks = sum_over g ks + (g' a - g a) + (g' b - g b))%Z.
Proof.
  intros Hnd Ha Hb Hab Hext.
  set (g1 := fun k => if (k =? a)%string then g' a else g k).
  assert (H1 : (sum_over g1 ks = sum_over g ks + (g1 a - g a))%Z).
  { apply sum_over_one; try assumption. intros k _ Hk. unfold g1.
    apply String.eqb_neq in Hk. now rewrite Hk. }
  assert (H2 : (sum_over g' ks = sum_over g1 ks + (g' b - g1 b))%Z).
  { apply sum_over_one; try assumption. intros k Hk Hkb. unfold g1.
    destruct (String.eqb_spec k a) as [-> | Hka]; [reflexivity |].
    now apply Hext. }
  assert (Ea : g1 a = g' a) by (unfold g1; now rewrite String.eqb_refl).
  assert (Eb : g1 b = g b).
  { unfold g1. assert (Hba : b <> a) by congruence.
    apply String.eqb_neq in Hba. now rewrite Hba. }
  lia.
Qed.

(** The sum of a field over a dict with distinct keys, key by key. *)
Lemma total_keys (f : user -> Z) (d : users_t) :
  Dict.wf d = true ->
  fold_right (fun kv s => (f (snd kv) + s)%Z) 0%Z d
  = sum_over (val_of f d) (Dict.keys d).
Proof.
  unfold Dict.keys. induction d as [| [k0 w] r IH]; intros Hwf; [reflexivity |].
  pose proof Hwf as Hnd. apply wf_NoDup in Hnd. unfold Dict.keys in Hnd.
  cbn [map fst] in Hnd. inversion Hnd as [| ? ? Hni Hnd']; subst.
  cbn [Dict.wf] in Hwf. apply andb_true_iff in Hwf. destruct Hwf as [_ Hwf].
  cbn [fold_right map fst snd sum_over].
  fold (sum_over (val_of f ((k0, w) :: r)) (map fst r)).
  rewrite IH by assumption. f_equal.
  - unfold val_of. cbn [Dict.get]. now rewrite String.eqb_refl.
  - symmetry. apply sum_over_ext_in. intros k Hk. unfold val_of. cbn [Dict.get].
    destruct (String.eqb_spec k0 k) as [-> | Hne]; [contradiction | reflexivity].
Qed.

Lemma vote_recorded_totals (st st' : store) (v : string) (now : Z)
    (left : bool) (a b : string) (me ua ub : user) :
  Dict.wf (users_file st) = true ->
  vote_recorded st st' v now left a b me ua ub ->
  let r := update_elo (IZR (elo ua)) (IZR (elo ub))
                      (if left then 1%R else 0%R) in
  (total_elo (users_file st')
   = total_elo (users_file st) + (fst r - elo ua) + (snd r - elo ub))%Z
  /\ (total_matches (users_file st') = total_matches (users_file st) + 2)%Z.
Proof.
  intros Hwf H r.
  pose proof (vote_recorded_wf _ _ _ _ _ _ _ _ _ _ Hwf H) as Hwf'.
  unfold vote_recorded in H. cbv zeta in H. fold r in H.
  destruct H as (Hme & Hua & Hub & Hab & Hav & Hbv & _ & _ & _ & _ & _ & _ & _
                 & Ga & Gb & Gv & Gother & Gkeys & _).
  assert (Hnd : NoDup (Dict.keys (users_file st))) by now apply wf_NoDup.
  assert (Ha : In a (Dict.keys (users_file st))).
  { apply get_some_in in Hua. now apply (in_map fst) in Hua. }
  assert (Hb : In b (Dict.keys (users_file st))).
  { apply get_some_in in Hub. now apply (in_map fst) in Hub. }
  assert (Hrest : forall f : user -> Z,
             f (set_vote_times (record_vote now (vote_times me)) me) = f me ->
             forall k, In k (Dict.keys (users_file st)) -> k <> a -> k <> b ->
                       val_of f (users_file st') k = val_of f (users_file st) k).
  { intros f Hf k _ Hka Hkb. unfold val_of.
    destruct (String.eqb_spec k v) as [-> | Hkv].
    - now rewrite Gv, Hme.
    - now rewrite Gother. }
  unfold total_elo, total_matches.
  rewrite !total_keys by assumption. rewrite Gkeys. split.
  - rewrite (sum_over_two (val_of elo (users_file st))
                          (val_of elo (users_file st')) _ a b Hnd Ha Hb Hab
                          (Hrest elo eq_refl)).
    unfold val_of. rewrite Ga, Gb, Hua, Hub. cbn [elo]. lia.
  - rewrite (sum_over_two (val_of matches_played (users_file st))
                          (val_of matches_played (users_file st')) _ a b
                          Hnd Ha Hb Hab (Hrest matches_played eq_refl)).
    unfold val_of. rewrite Ga, Gb, Hua, Hub. cbn [matches_played]. lia.
Qed.

Lemma serve_totals (st : store) (q : request) :
  Dict.wf (users_file st) = true ->
  (2 * Z.abs (total_elo (users_file (serve st q)) - total_elo (users_file st))
   <= total_matches (users_file (serve st q)) - total_matches (users_file st))%Z.
Proof.
  intros Hwf.
  destruct (serve_cases st q Hwf) as [-> | (a & b & me & ua & ub & H)]; [lia |].
  destruct (vote_recorded_totals _ _ _ _ _ _ _ _ _ _ Hwf H) as [He Hm].
  pose proof (update_elo_zero_sum_Z (elo ua) (elo ub)
                (if req_left q then 1%R else 0%R)) as Hz.
  cbv zeta in Hz. lia.
Qed.



End PageMore.

(** ** Rate limiter: accepted votes and the next attempt *)

Section RateLimiterRuns.

Local Open Scope Z_scope.

Lemma times_of_get (st : store) (u : string) (r : user) :
  Dict.get (users_file st) u = Some r -> times_of st u = vote_times r.
Proof. unfold times_of. now intros ->. Qed.

(** What a request does to the stored timestamps of a user: an accepted
    vote of that user prunes them and appends its moment, any other
    request leaves them alone. *)
Lemma serve_times (st : store) (q : request) (w : string) :
  Dict.wf (users_file st) = true ->
  times_of (serve st q) w
  = match accepted_times st [q] w with
    | [] => times_of st w
    | t :: _ => record_vote t (times_of st w)
    end.
Proof.
  intros Hwf. cbn [accepted_times]. rewrite app_nil_r. unfold serve.
  destruct (vote_page st (req_user q) (req_now q) (req_rnd q) (req_left q)
                      (req_right q)) as [[o st'] | k] eqn:Hrun;
    [| reflexivity].
  destruct o as [| | | a b | a b won];
    try (apply vote_page_files in Hrun; now rewrite Hrun).
  destruct (vote_page_recorded _ _ _ _ _ _ _ _ _ _ Hwf Hrun)
    as (me & ua & ub & H).
  unfold vote_recorded in H. cbv zeta in H.
  destruct H as (Hme & Hua & Hub & Hab & Hav & Hbv & _ & _ & _ & _ & _ & _ & _
                 & Ga & Gb & Gv & Gother & _).
  destruct (String.eqb_spec (req_user q) w) as [<- | Hne].
  - rewrite (times_of_get _ _ _ Gv), (times_of_get _ _ _ Hme). reflexivity.
  - destruct (String.eqb_spec w a) as [-> | Hna].
    { now rewrite (times_of_get _ _ _ Ga), (times_of_get _ _ _ Hua). }
    destruct (String.eqb_spec w b) as [-> | Hnb].
    { now rewrite (times_of_get _ _ _ Gb), (times_of_get _ _ _ Hub). }
    unfold times_of. rewrite Gother; [reflexivity | | |]; congruence.
Qed.

Lemma accepted_times_head (st : store) (q : request) (w : string) :
  accepted_times st [q] w = [] \/ accepted_times st [q] w = [req_now q].
Proof.
  cbn [accepted_times]. rewrite app_nil_r.
  destruct (vote_page _ _ _ _ _ _) as [[[| | | a b | a b won] st'] | k];
    try (now left).
  destruct (req_user q =? w)%string; [now right | now left].
Qed.

Lemma accepted_times_cons (st : store) (q : request) (r : list request)
    (w : string) :
  accepted_times st (q :: r) w
  = accepted_times st [q] w ++ accepted_times (serve st q) r w.
Proof. cbn [accepted_times]. now rewrite app_nil_r. Qed.

(** Votes accepted at moments that [now] still has in its window are all
    in the stored list, and counted at [now]. *)
Lemma serve_all_times (qs : list request) (st : store) (w : string)
    (now : Z) :
  Dict.wf (users_file st) = true ->
  Forall (fun t => t <= now /\ now - t < HOUR) (accepted_times st qs w) ->
  prune_vote_times now (times_of (serve_all st qs) w)
  = prune_vote_times now (times_of st w) ++ accepted_times st qs w.
Proof.
  revert st. induction qs as [| q r IH]; intros st Hwf Hall.
  - cbn. now rewrite app_nil_r.
  - rewrite accepted_times_cons in Hall |- *.
    apply Forall_app in Hall. destruct Hall as [Hhead Htail].
    unfold serve_all in *. cbn [fold_left].
    rewrite (IH (serve st q) (serve_wf st q Hwf) Htail).
    rewrite (serve_times st q w Hwf), app_assoc. f_equal.
    destruct (accepted_times_head st q w) as [E | E]; rewrite E in *.
    + now rewrite app_nil_r.
    + inversion Hhead as [| ? ? [Hle Hin] _]; subst.
      now apply prune_record_vote.
Qed.

(** C5: the pruning keeps exactly the timestamps less than one hour old;
    the page of a logged-in user answers "Vote limit reached." exactly when
    15 or more of them are kept.  Over any requests, the votes of a voter
    that the page accepts at moments still in the window of [now] are all
    counted at [now], together with the stored timestamps of that window:
    when they are 15 or more, as after 15 accepted votes, the attempt at
    [now] is rejected and writes nothing.  The voter is allowed again once
    a timestamp of a full list of 15 has left the window, as it is when
    the clock stands 61 minutes after all of them. *)
Theorem rate_limit_window :
  (forall now ts t,
     In t (prune_vote_times now ts) <-> In t ts /\ (now - t < HOUR)%Z)
  /\ (forall st st' v now rnd left right me o,
        Dict.get (users_file st) v = Some me ->
        vote_page st v now rnd left right = Ok (o, st') ->
        (o = RateLimited <->
         (15 <= List.length (prune_vote_times now (vote_times me)))%nat))
  /\ (forall st v now rnd left right me,
        Dict.get (users_file st) v = Some me ->
        (15 <= List.length (prune_vote_times now (vote_times me)))%nat ->
        vote_page st v now rnd left right = Ok (RateLimited, st))
  /\ (forall now times ts0,
        Forall (fun t => (t <= now /\ now - t < HOUR)%Z) times ->
        (15 <= List.length times)%nat ->
        limit_reached
          (prune_vote_times now
             (fold_left (fun ts t => record_vote t ts) times ts0)) = true)
  /\ (forall now' ts t,
        (List.length ts <= 15)%nat -> In t ts -> (HOUR <= now' - t)%Z ->
        limit_reached (prune_vote_times now' ts) = false)
  /\ (forall now ts,
        Forall (fun t => (t <= now)%Z) ts ->
        limit_reached (prune_vote_times (now + 61 * 60 * 1000000) ts) = false)
  /\ (forall st qs v now,
        Dict.wf (users_file st) = true ->
        Forall (fun t => (t <= now /\ now - t < HOUR)%Z)
               (accepted_times st qs v) ->
        prune_vote_times now (times_of (serve_all st qs) v)
        = prune_vote_times now (times_of st v) ++ accepted_times st qs v)
  /\ (forall st qs v now rnd left right,
        Dict.wf (users_file st) = true ->
        Forall (fun t => (t <= now /\ now - t < HOUR)%Z)
               (accepted_times st qs v) ->
        (15 <= List.length (prune_vote_times now (times_of st v))
               + List.length (accepted_times st qs v))%nat ->
        vote_page (serve_all st qs) v now rnd left right
        = Ok (RateLimited, serve_all st qs))
  /\ (forall st st' v now rnd left right me o,
        Dict.get (users_file st) v = Some me ->
        Forall (fun t => (t <= now)%Z) (vote_times me) ->
        vote_page st v (now + 61 * 60 * 1000000) rnd left right
        = Ok (o, st') ->
        o <> RateLimited).
Proof.
  repeat match goal with |- _ /\ _ => split end.
  - exact prune_In.
  - exact vote_page_rate_limited.
  - exact vote_page_limit.
  - intros now times ts0 Hall H15. apply limit_reached_iff.
    rewrite (prune_accepted_votes _ _ _ Hall), length_app. lia.
  - intros now' ts t Hlen Hin Hout.
    destruct (limit_reached _) eqn:E; [| reflexivity].
    apply limit_reached_iff in E.
    assert (Hlt : (List.length (prune_vote_times now' ts) < List.length ts)%nat).
    { apply filter_length_lt with (x := t); [assumption |].
      unfold within_window. apply Z.ltb_ge. lia. }
    lia.
  - intros now ts Hall. rewrite prune_all_elapsed; [reflexivity |].
    eapply Forall_impl; [| exact Hall]. intros t Ht. cbv beta in *.
    unfold HOUR. lia.
  - intros st qs v now Hwf Hall. now apply serve_all_times.
  - intros st qs v now rnd left right Hwf Hall H15.
    pose proof (serve_all_times qs st v now Hwf Hall) as Hp.
    assert (Hlen : (15 <= List.length
                            (prune_vote_times now
                               (times_of (serve_all st qs) v)))%nat)
      by (rewrite Hp, length_app; exact H15).
    unfold times_of in Hlen.
    destruct (Dict.get (users_file (serve_all st qs)) v) as [me |] eqn:Hme.
    + now apply vote_page_limit with (me := me).
    + cbn in Hlen. lia.
  - intros st st' v now rnd left right me o Hme Hall Hrun Ho.
    apply (vote_page_rate_limited _ _ _ _ _ _ _ _ _ Hme Hrun) in Ho.
    rewrite prune_all_elapsed in Ho; [cbn in Ho; lia |].
    eapply Forall_impl; [| exact Hall]. intros t Ht. cbv beta in *.
    unfold HOUR. lia.
Qed.

Lemma rate_limit_window_witness :
  (Forall (fun t => (t <= 20 /\ 20 - t < HOUR)%Z) busy_times
   /\ limit_reached
        (prune_vote_times 20
           (fold_left (fun ts t => record_vote t ts) busy_times [])) = true)
  /\ vote_page busy_store "V" 20 0 true false = Ok (RateLimited, busy_store)
  /\ limit_reached (prune_vote_times (20 + 61 * 60 * 1000000) busy_times)
     = false
  /\ (Dict.wf (users_file nearly_busy_store) = true
      /\ accepted_times nearly_busy_store [mkRequest "V" 16 0 true false] "V"
         = [16]
      /\ vote_page (serve_all nearly_busy_store
                              [mkRequest "V" 16 0 true false])
                   "V" 20 0 true false
         = Ok (RateLimited,
               serve_all nearly_busy_store [mkRequest "V" 16 0 true false])).
Proof.
  assert (Hall : Forall (fun t => (t <= 20 /\ 20 - t < HOUR)%Z) busy_times).
  { apply Forall_forall. intros t Hin. apply in_map_iff in Hin.
    destruct Hin as [n [<- Hn]]. apply in_seq in Hn. unfold HOUR. lia. }
  destruct rate_limit_window
    as (_ & _ & Hpage & Hfold & _ & Hlater & _ & Hruns & _).
  split; [split; [exact Hall |] | split; [| split]].
  - apply (Hfold 20%Z busy_times []); [exact Hall | vm_compute; lia].
  - apply (Hpage busy_store "V"%string 20%Z 0%nat true false
                 (mkUser "pw" 1200 None Male busy_times 0));
      [reflexivity | vm_compute; lia].
  - apply (Hlater 20%Z busy_times).
    apply Forall_forall. intros t Hin. apply in_map_iff in Hin.
    destruct Hin as [n [<- Hn]]. apply in_seq in Hn. lia.
  - assert (Hacc : accepted_times nearly_busy_store
                     [mkRequest "V" 16 0 true false] "V" = [16]).
    { destruct (vote_page_voted nearly_busy_store "V"%string 16 0%nat
                  true false
                  (mkUser "v" 1200 None Male (map Z.of_nat (seq 1 14)) 0)
                  "A"%string "B"%string [("V"%string, [])])
        as (ua & ub & st' & _ & _ & _ & _ & _ & _ & _ & Hrun & _);
        [reflexivity | reflexivity | reflexivity | vm_compute; reflexivity
        | reflexivity |].
      cbn [accepted_times req_user req_now req_rnd req_left req_right].
      rewrite Hrun. reflexivity. }
    split; [reflexivity |]. split; [exact Hacc |].
    apply Hruns; [reflexivity | |].
    + rewrite Hacc. constructor; [unfold HOUR; lia | constructor].
    + rewrite Hacc. vm_compute. lia.
Defined.

End RateLimiterRuns.

(** ** Upload *)

Section UploadMore.

Local Open Scope string_scope.

Lemma length_append (x y : string) :
  String.length (x ++ y) = (String.length x + String.length y)%nat.
Proof. induction x as [| c x IH]; cbn; [reflexivity | now rewrite IH]. Qed.

Lemma append_inj_r (x y s : string) : x ++ s = y ++ s -> x = y.
Proof.
  revert y. induction x as [| c x IH]; intros [| d y] H; cbn in H.
  - reflexivity.
  - apply (f_equal String.length) in H. cbn in H. rewrite length_append in H. lia.
  - apply (f_equal String.length) in H. cbn in H. rewrite length_append in H. lia.
  - injection H as -> H. f_equal. now apply IH.
Qed.

Lemma has_char_append (c : ascii) (x y : string) :
  has_char c (x ++ y) = has_char c x || has_char c y.
Proof.
  induction x as [| d x IH]; cbn; [reflexivity |].
  now rewrite IH, orb_assoc.
Qed.

Lemma replace_char_clean (old new : ascii) (s : string) :
  old <> new -> has_char old (replace_char old new s) = false.
Proof.
  intros Hne. induction s as [| c s IH]; cbn; [reflexivity |].
  rewrite IH, orb_false_r. destruct (Ascii.eqb_spec c old) as [-> | Hc].
  - apply Ascii.eqb_neq. congruence.
  - now apply Ascii.eqb_neq.
Qed.

(** Replacing one character by another loses nothing on strings that do
    not hold the other. *)
Lemma replace_char_inj (old new : ascii) (s t : string) :
  has_char new s = false -> has_char new t = false ->
  replace_char old new s = replace_char old new t -> s = t.
Proof.
  revert t. induction s as [| c s IH]; intros [| d t] Hs Ht H; cbn in *;
    try discriminate; [reflexivity |].
  apply orb_false_iff in Hs, Ht. destruct Hs as [Hc Hs], Ht as [Hd Ht].
  injection H as Hcd H. f_equal; [| now apply IH].
  apply Ascii.eqb_neq in Hc, Hd.
  destruct (Ascii.eqb_spec c old) as [-> | Hco],
           (Ascii.eqb_spec d old) as [-> | Hdo]; congruence.
Qed.

Lemma prefix_slash_replace (e : string) :
  prefix "/" (replace_char "@" "_" e ++ ".jpg") = prefix "/" e.
Proof.
  destruct e as [| c e]; [reflexivity |]. cbn [replace_char append prefix].
  destruct (Ascii.eqb_spec c "@") as [-> | Hc]; [reflexivity |].
  destruct (ascii_dec "/" c); now destruct e.
Qed.

Lemma upload_path_relative (e : string) :
  prefix "/" e = false ->
  upload_path e = "uploads/" ++ replace_char "@" "_" e ++ ".jpg".
Proof.
  intros H. unfold upload_path, path_join. now rewrite prefix_slash_replace, H.
Qed.

Lemma upload_path_absolute (e : string) :
  prefix "/" e = true -> upload_path e = replace_char "@" "_" e ++ ".jpg".
Proof.
  intros H. unfold upload_path, path_join. now rewrite prefix_slash_replace, H.
Qed.

Lemma prefix_slash_head (e : string) :
  prefix "/" e = true -> exists r, e = String "/" r.
Proof.
  destruct e as [| c e]; [discriminate |]. cbn [prefix].
  destruct (ascii_dec "/" c) as [<- | Hc]; [| discriminate].
  intros _. now exists e.
Qed.

Lemma upload_path_truthy (e : string) :
  pic_truthy (Some (upload_path e)) = true.
Proof.
  cbn [pic_truthy]. destruct (prefix "/" e) eqn:H.
  - rewrite (upload_path_absolute _ H).
    destruct (prefix_slash_head _ H) as [r ->]. reflexivity.
  - rewrite (upload_path_relative _ H). reflexivity.
Qed.

(** X14: the photo of [e] is saved as [uploads/] followed by [e] with every
    [@] turned into [_] and [.jpg], unless [e] begins with [/], in which
    case [os.path.join] drops the directory and the file lands outside of
    [uploads]; the path holds no [@]; e-mails that hold no [_] get
    different paths, while two different e-mails of the domain can get
    the same one. *)
Theorem upload_path_shape :
  (forall e, prefix "/" e = false ->
             upload_path e = "uploads/" ++ replace_char "@" "_" e ++ ".jpg")
  /\ (forall e, prefix "/" e = true ->
                upload_path e = replace_char "@" "_" e ++ ".jpg"
                /\ prefix "uploads/" (upload_path e) = false)
  /\ (forall e, has_char "@" (upload_path e) = false)
  /\ (forall e1 e2,
        has_char "_" e1 = false -> has_char "_" e2 = false ->
        upload_path e1 = upload_path e2 -> e1 = e2)
  /\ (exists e1 e2,
        e1 <> e2
        /\ endswith e1 "@nirmauni.ac.in" = true
        /\ endswith e2 "@nirmauni.ac.in" = true
        /\ upload_path e1 = upload_path e2).
Proof.
  repeat match goal with |- _ /\ _ => split end.
  - exact upload_path_relative.
  - intros e H. split; [now apply upload_path_absolute |].
    rewrite (upload_path_absolute _ H).
    destruct (prefix_slash_head _ H) as [r ->]. reflexivity.
  - intros e. destruct (prefix "/" e) eqn:H.
    + rewrite (upload_path_absolute _ H), has_char_append.
      rewrite replace_char_clean by discriminate. reflexivity.
    + rewrite (upload_path_relative _ H), !has_char_append.
      rewrite replace_char_clean by discriminate. reflexivity.
  - intros e1 e2 H1 H2 Heq.
    destruct (prefix "/" e1) eqn:P1, (prefix "/" e2) eqn:P2.
    + rewrite (upload_path_absolute _ P1), (upload_path_absolute _ P2) in Heq.
      apply append_inj_r in Heq. now apply replace_char_inj in Heq.
    + rewrite (upload_path_absolute _ P1), (upload_path_relative _ P2) in Heq.
      destruct (prefix_slash_head _ P1) as [r ->]. discriminate.
    + rewrite (upload_path_relative _ P1), (upload_path_absolute _ P2) in Heq.
      destruct (prefix_slash_head _ P2) as [r ->]. discriminate.
    + rewrite (upload_path_relative _ P1), (upload_path_relative _ P2) in Heq.
      cbn [append] in Heq. injection Heq as Heq.
      apply append_inj_r in Heq. now apply replace_char_inj in Heq.
  - exists "a@b@nirmauni.ac.in", "a_b@nirmauni.ac.in".
    split; [discriminate |]. repeat split.
Qed.

Lemma upload_path_shape_witness :
  prefix "/" "x@nirmauni.ac.in" = false
  /\ upload_path "x@nirmauni.ac.in" = "uploads/x_nirmauni.ac.in.jpg"
  /\ prefix "/" "/tmp/x@nirmauni.ac.in" = true
  /\ upload_path "/tmp/x@nirmauni.ac.in" = "/tmp/x_nirmauni.ac.in.jpg".
Proof.
  split; [reflexivity |]. split.
  - exact (proj1 upload_path_shape "x@nirmauni.ac.in" eq_refl).
  - split; [reflexivity |].
    exact (proj1 (proj1 (proj2 upload_path_shape) "/tmp/x@nirmauni.ac.in"
                        eq_refl)).
Defined.




End UploadMore.

(** ** Registration and login *)

Section AccountsMore.

Variable hash_password : string -> string.

Lemma set_absent (V : Type) (d : Dict.t V) (k : string) (v : V) :
  Dict.get d k = None -> Dict.set d k v = d ++ [(k, v)].
Proof. intros H. apply set_fresh. now apply get_none_not_in. Qed.

Lemma get_app_last (V : Type) (d : Dict.t V) (k k' : string) (v : V) :
  In k' (Dict.keys d) -> Dict.get (d ++ [(k, v)]) k' = Dict.get d k'.
Proof.
  unfold Dict.keys. induction d as [| [k0 w] r IH]; cbn; [tauto |].
  intros [-> | Hin].
  - now rewrite String.eqb_refl.
  - destruct (k0 =? k')%string; [reflexivity | now apply IH].
Qed.

(** The registration branch in closed form. *)
Lemma submit_register (st : store) (ss : session) (email pw : string)
    (gender : option gender_t) :
  submit hash_password st ss Register email pw gender
  = if endswith email "@nirmauni.ac.in" then
      match Dict.get (users_file st) email with
      | Some _ => (AlreadyRegistered, st, ss)
      | None =>
          match gender with
          | None => (NoGender, st, ss)
          | Some g =>
              (Registered,
               mkStore (users_file st
                        ++ [(email,
                             mkUser (hash_password pw) 1200 None g [] 0)])
                       (votes_file st),
               ss)
          end
      end
    else (NotNirmaEmail, st, ss).
Proof.
  unfold submit, Dict.mem.
  destruct (endswith email "@nirmauni.ac.in"); cbn [negb]; [| reflexivity].
  destruct (Dict.get (users_file st) email) eqn:Hget; [reflexivity |].
  destruct gender as [g |]; [| reflexivity].
  now rewrite (set_absent _ _ _ _ Hget).
Qed.

(** The login branch in closed form. *)
Lemma submit_login (st : store) (ss : session) (email pw : string)
    (gender : option gender_t) :
  submit hash_password st ss Login email pw gender
  = if endswith email "@nirmauni.ac.in" then
      match Dict.get (users_file st) email with
      | None => (NotRegistered, st, ss)
      | Some u =>
          if (password u =? hash_password pw)%string
          then (LoggedIn, st, mkSession true (Some email))
          else (WrongPassword, st, ss)
      end
    else (NotNirmaEmail, st, ss).
Proof.
  unfold submit.
  destruct (endswith email "@nirmauni.ac.in"); cbn [negb]; [| reflexivity].
  destruct (Dict.get (users_file st) email) as [u |]; [| reflexivity].
  now destruct (password u =? hash_password pw)%string.
Qed.

Lemma wf_app_fresh (V : Type) (d : Dict.t V) (k : string) (v : V) :
  Dict.wf d = true -> Dict.get d k = None -> Dict.wf (d ++ [(k, v)]) = true.
Proof.
  intros Hwf Hget. rewrite <- (set_absent _ _ _ _ Hget). now apply wf_set.
Qed.

(** X16: a registration is accepted exactly when the e-mail ends with
    [@nirmauni.ac.in], is not registered yet and a gender is chosen.  It
    then appends one record with the hashed password, the base rating, no
    photo, no timestamps and no matches; it never replaces or changes an
    existing record, keeps the keys distinct, and touches neither the
    histories nor the session.  A refused registration writes nothing. *)
Theorem register_effect (st : store) (ss : session) (email pw : string)
    (gender : option gender_t) :
  let res := submit hash_password st ss Register email pw gender in
  let o := fst (fst res) in
  let st' := snd (fst res) in
  snd res = ss
  /\ votes_file st' = votes_file st
  /\ (o = Registered <->
      endswith email "@nirmauni.ac.in" = true
      /\ Dict.get (users_file st) email = None
      /\ gender <> None)
  /\ (o <> Registered -> st' = st)
  /\ (forall g, o = Registered -> gender = Some g ->
        users_file st'
        = users_file st
          ++ [(email, mkUser (hash_password pw) 1200 None g [] 0)])
  /\ (forall u r, Dict.get (users_file st) u = Some r ->
                  Dict.get (users_file st') u = Some r)
  /\ (Dict.wf (users_file st) = true -> Dict.wf (users_file st') = true).
Proof.
  intros res o st'. subst o st' res. rewrite submit_register.
  destruct (endswith email "@nirmauni.ac.in") eqn:Hend;
    [destruct (Dict.get (users_file st) email) as [u0 |] eqn:Hget;
       [| destruct gender as [g0 |]] |];
    cbn [fst snd users_file votes_file];
    repeat match goal with |- _ /\ _ => split end;
    try reflexivity; try tauto; try discriminate;
    try (split; [discriminate | intros (H1 & H2 & H3); congruence]).
  - split; [intros _ | reflexivity]. repeat split; congruence.
  - intros g _ [= <-]. reflexivity.
  - intros u r Hu. rewrite get_app_last; [assumption |].
    apply get_some_in in Hu. now apply (in_map fst) in Hu.
  - intros Hwf. now apply wf_app_fresh.
Qed.

(** X17: a login changes neither file.  It opens a session for the e-mail
    exactly when the e-mail ends with [@nirmauni.ac.in], is registered,
    and the hash of the password is the stored one; in every other case
    the session stays as it was.  A login with the e-mail and password of
    an accepted registration succeeds. *)
Theorem login_effect (st : store) (ss : session) (email pw : string)
    (gender : option gender_t) :
  let res := submit hash_password st ss Login email pw gender in
  snd (fst res) = st
  /\ (fst (fst res) = LoggedIn <->
      endswith email "@nirmauni.ac.in" = true
      /\ exists u, Dict.get (users_file st) email = Some u
                   /\ password u = hash_password pw)
  /\ (fst (fst res) = LoggedIn -> snd res = mkSession true (Some email))
  /\ (fst (fst res) <> LoggedIn -> snd res = ss)
  /\ (forall st0 ss0 g0,
        submit hash_password st0 ss0 Register email pw g0
        = (Registered, st, ss0) ->
        fst (fst res) = LoggedIn).
Proof.
  intros res. subst res. rewrite submit_login.
  assert (Hreg : forall st0 ss0 g0,
             submit hash_password st0 ss0 Register email pw g0
             = (Registered, st, ss0) ->
             endswith email "@nirmauni.ac.in" = true
             /\ exists u, Dict.get (users_file st) email = Some u
                          /\ password u = hash_password pw).
  { intros st0 ss0 g0. rewrite submit_register.
    destruct (endswith email "@nirmauni.ac.in"); [| discriminate].
    destruct (Dict.get (users_file st0) email) as [u0 |] eqn:Hget0;
      [discriminate |].
    destruct g0 as [g |]; [| discriminate].
    intros [= <-]. split; [reflexivity |]. cbn [users_file].
    rewrite <- (set_absent _ _ _ _ Hget0), get_set_same.
    eexists. split; reflexivity. }
  destruct (endswith email "@nirmauni.ac.in") eqn:Hend.
  2: { cbn [fst snd]. repeat match goal with |- _ /\ _ => split end;
         try reflexivity; try discriminate.
       - split; [discriminate | intros [H _]; discriminate].
       - intros st0 ss0 g0 H. apply Hreg in H. destruct H; discriminate. }
  destruct (Dict.get (users_file st) email) as [u |] eqn:Hget.
  2: { cbn [fst snd]. repeat match goal with |- _ /\ _ => split end;
         try reflexivity; try discriminate.
       - split; [discriminate | intros (_ & u & H & _); discriminate].
       - intros st0 ss0 g0 H. apply Hreg in H.
         destruct H as (_ & u & H & _). discriminate. }
  destruct (String.eqb_spec (password u) (hash_password pw)) as [Hpw | Hpw];
    cbn [fst snd]; repeat match goal with |- _ /\ _ => split end;
    try reflexivity; try discriminate; try tauto.
  - split; [intros _ | reflexivity]. split; [reflexivity |]. now exists u.
  - split; [discriminate |]. intros (_ & u' & [= <-] & H). contradiction.
  - intros st0 ss0 g0 H. apply Hreg in H.
    destruct H as (_ & u' & [= <-] & H). contradiction.
Qed.

(** X18: registering changes nothing for the matchmaker: whoever votes
    and whatever the histories, the number of uploaded photos, the
    eligible participants and the answer of [select_pair] are the same on
    the users after a registration as on the users before it. *)
Theorem register_leaves_matchmaking (st : store) (ss : session)
    (email pw : string) (gender : option gender_t) (votes : votes_t)
    (v : string) (g : gender_t) (rnd : nat) :
  let st' := snd (fst (submit hash_password st ss Register email pw gender)) in
  uploaded_photos_count (users_file st')
  = uploaded_photos_count (users_file st)
  /\ eligible (users_file st') v g = eligible (users_file st) v g
  /\ select_pair (users_file st') votes v g rnd
     = select_pair (users_file st) votes v g rnd.
Proof.
  intros st'. subst st'. rewrite submit_register.
  destruct (endswith email "@nirmauni.ac.in"); [| cbn [fst snd]; tauto].
  destruct (Dict.get (users_file st) email) as [u0 |]; [cbn [fst snd]; tauto |].
  destruct gender as [g0 |]; [| cbn [fst snd]; tauto].
  cbn [fst snd users_file].
  set (new := mkUser (hash_password pw) 1200 None g0 [] 0).
  assert (Hel : eligible (users_file st ++ [(email, new)]) v g
                = eligible (users_file st) v g).
  { unfold eligible. rewrite filter_app. cbn [filter].
    unfold is_eligible at 2. cbn [snd pic new pic_truthy andb].
    now rewrite app_nil_r. }
  assert (Hcount : uploaded_photos_count (users_file st ++ [(email, new)])
                   = uploaded_photos_count (users_file st)).
  { unfold uploaded_photos_count. rewrite filter_app. cbn [filter snd].
    cbn [pic new pic_truthy]. now rewrite app_nil_r. }
  split; [exact Hcount |]. split; [exact Hel |].
  rewrite !select_pair_closed, Hel.
  assert (Hcand : candidates (users_file st ++ [(email, new)])
                             (tried_of votes v) (eligible (users_file st) v g)
                  = candidates (users_file st) (tried_of votes v)
                               (eligible (users_file st) v g)).
  { unfold candidates. apply filter_ext_in. intros p Hp.
    apply enumerate_pairs_members in Hp. destruct Hp as [Ha Hb].
    apply eligible_keys in Ha, Hb.
    unfold is_candidate, elo_of. rewrite Hcount.
    now rewrite (get_app_last _ _ _ _ _ Ha), (get_app_last _ _ _ _ _ Hb). }
  now rewrite Hcand.
Qed.

Lemma get_app_inv (V : Type) (d : Dict.t V) (k k' : string) (v x : V) :
  Dict.get (d ++ [(k, v)]) k' = Some x ->
  Dict.get d k' = Some x \/ (k' = k /\ x = v).
Proof.
  induction d as [| [k0 w] r IH]; cbn.
  - destruct (String.eqb_spec k k') as [-> | Hne]; [| discriminate].
    intros [= <-]. now right.
  - destruct (k0 =? k')%string; [now left | exact IH].
Qed.

Lemma keys_set_incl (V : Type) (d : Dict.t V) (k k' : string) (v : V) :
  In k' (Dict.keys (Dict.set d k v)) -> k' = k \/ In k' (Dict.keys d).
Proof.
  unfold Dict.keys. induction d as [| [k0 w] r IH]; cbn.
  - intros [<- | []]. now left.
  - destruct (String.eqb_spec k0 k) as [-> | Hne]; cbn.
    + intros [<- | H]; [now left | right; now right].
    + intros [<- | H]; [right; now left |].
      destruct (IH H) as [-> | H']; [now left | right; now right].
Qed.

Lemma tried_of_set (votes : votes_t) (v w : string) (h : list pair_t) :
  tried_of (Dict.set votes v h) w
  = if (w =? v)%string then h else tried_of votes w.
Proof.
  unfold tried_of. destruct (String.eqb_spec w v) as [-> | Hne].
  - now rewrite get_set_same.
  - rewrite get_set_other; [reflexivity | congruence].
Qed.

Lemma total_app (f : user -> Z) (d : users_t) (k : string) (x : user) :
  fold_right (fun kv s => (f (snd kv) + s)%Z) 0%Z (d ++ [(k, x)])
  = (fold_right (fun kv s => (f (snd kv) + s)%Z) 0%Z d + f x)%Z.
Proof.
  induction d as [| [k0 w] r IH]; cbn [app fold_right snd]; [lia |].
  rewrite IH. lia.
Qed.

Lemma total_pointwise (f : user -> Z) (d d' : users_t) :
  Dict.wf d = true -> Dict.wf d' = true -> Dict.keys d' = Dict.keys d ->
  (forall k, val_of f d' k = val_of f d k) ->
  fold_right (fun kv s => (f (snd kv) + s)%Z) 0%Z d'
  = fold_right (fun kv s => (f (snd kv) + s)%Z) 0%Z d.
Proof.
  intros Hwf Hwf' Hkeys Hval. rewrite !total_keys by assumption.
  rewrite Hkeys. apply sum_over_ext_in. intros k _. apply Hval.
Qed.

Lemma keys_length (V : Type) (d : Dict.t V) :
  List.length (Dict.keys d) = List.length d.
Proof. apply length_map. Qed.

(** A pair that is in order stays so when the records of its three users
    keep their gender and do not lose their photo. *)
Lemma pair_ok_persists (users users' : users_t) (v : string) (p : pair_t) :
  (forall k r, Dict.get users k = Some r ->
     exists r', Dict.get users' k = Some r' /\ gender r' = gender r
                /\ (pic_truthy (pic r) = true -> pic_truthy (pic r') = true)) ->
  pair_ok users v p -> pair_ok users' v p.
Proof.
  intros Hp (Hs & Hd & Hv1 & Hv2 & me & ra & rb & Gv & Ga & Gb & Pa & Pb
             & Ea & Eb).
  destruct (Hp _ _ Gv) as (me' & Gv' & Egv & _).
  destruct (Hp _ _ Ga) as (ra' & Ga' & Ega & Pa').
  destruct (Hp _ _ Gb) as (rb' & Gb' & Egb & Pb').
  unfold pair_ok. repeat split; try assumption.
  exists me', ra', rb'. repeat split; try assumption; try tauto; congruence.
Qed.

(** Registration keeps a store well formed. *)
Lemma store_ok_register (st : store) (ss : session) (email pw : string)
    (gender : option gender_t) :
  store_ok st ->
  store_ok (snd (fst (submit hash_password st ss Register email pw gender))).
Proof.
  intros Hok. rewrite submit_register.
  destruct (endswith email "@nirmauni.ac.in") eqn:Hend; [| exact Hok].
  destruct (Dict.get (users_file st) email) as [u0 |] eqn:Hget; [exact Hok |].
  destruct gender as [g0 |]; [| exact Hok].
  cbn [fst snd].
  set (new := mkUser (hash_password pw) 1200 None g0 [] 0).
  destruct Hok as (Hwf & Hwfv & Husers & Hkeys & Hnd & Hpairs & Htot).
  unfold store_ok. cbn [users_file votes_file].
  repeat match goal with |- _ /\ _ => split end.
  - now apply wf_app_fresh.
  - assumption.
  - intros u r Hu. apply get_app_inv in Hu. destruct Hu as [Hu | [-> ->]].
    + now apply Husers.
    + unfold user_ok, new. cbn. repeat split; try assumption; try lia.
      now left.
  - intros v Hv. unfold Dict.keys. rewrite map_app. apply in_or_app. left.
    now apply Hkeys.
  - exact Hnd.
  - intros v p Hp. apply pair_ok_persists with (users := users_file st);
      [| now apply Hpairs].
    intros k r Hk. exists r. split; [| tauto].
    rewrite get_app_last; [assumption |].
    apply get_some_in in Hk. now apply (in_map fst) in Hk.
  - unfold total_elo, total_matches in *. rewrite !total_app, length_app.
    cbn [List.length new elo matches_played]. unfold BASE_ELO in *. lia.
Qed.

(** The upload page keeps a store well formed. *)
Lemma store_ok_upload (st : store) (v : string) (file saved : bool) :
  store_ok st -> store_ok (app_step hash_password st (UploadEv v file saved)).
Proof.
  intros Hok. cbn [app_step]. unfold upload_page, Dict.lookup.
  destruct (Dict.get (users_file st) v) as [me |] eqn:Hme; cbn [bind];
    [| exact Hok].
  destruct (pic me) eqn:Hpic; [exact Hok |].
  destruct file; [| exact Hok].
  destruct saved; [| exact Hok].
  destruct Hok as (Hwf & Hwfv & Husers & Hkeys & Hnd & Hpairs & Htot).
  set (me' := with_pic (upload_path v) me).
  assert (Hk : Dict.keys (Dict.set (users_file st) v me')
               = Dict.keys (users_file st))
    by now apply keys_set_present with (v0 := me).
  assert (Hwf' : Dict.wf (Dict.set (users_file st) v me') = true)
    by now apply wf_set.
  unfold store_ok. cbn [users_file votes_file].
  repeat match goal with |- _ /\ _ => split end.
  - exact Hwf'.
  - assumption.
  - intros u r Hu. destruct (String.eqb_spec u v) as [-> | Hne].
    + rewrite get_set_same in Hu. injection Hu as <-.
      destruct (Husers _ _ Hme) as (He & _ & Hm & Ht).
      unfold user_ok, me'. cbn [with_pic pic matches_played vote_times].
      repeat split; try assumption. right. apply upload_path_truthy.
    + rewrite get_set_other in Hu by congruence. now apply Husers.
  - intros w Hw. rewrite Hk. now apply Hkeys.
  - exact Hnd.
  - intros w p Hp. apply pair_ok_persists with (users := users_file st);
      [| now apply Hpairs].
    intros k r Hget. destruct (String.eqb_spec k v) as [-> | Hne].
    + rewrite Hme in Hget. injection Hget as <-. exists me'.
      rewrite get_set_same. repeat split. intros _. apply upload_path_truthy.
    + exists r. rewrite get_set_other by congruence. tauto.
  - unfold total_elo, total_matches in *.
    rewrite (total_pointwise elo _ _ Hwf Hwf' Hk),
            (total_pointwise matches_played _ _ Hwf Hwf' Hk).
    + rewrite <- !keys_length, Hk in *. exact Htot.
    + intros k. unfold val_of. destruct (String.eqb_spec k v) as [-> | Hne].
      * now rewrite get_set_same, Hme.
      * now rewrite get_set_other by congruence.
    + intros k. unfold val_of. destruct (String.eqb_spec k v) as [-> | Hne].
      * now rewrite get_set_same, Hme.
      * now rewrite get_set_other by congruence.
Qed.

Lemma ensure_history_wf (votes : votes_t) (v : string) :
  Dict.wf votes = true -> Dict.wf (ensure_history votes v) = true.
Proof.
  intros Hwf. unfold ensure_history. destruct (Dict.mem votes v);
    [assumption | now apply wf_set].
Qed.

Lemma ensure_history_keys (votes : votes_t) (v w : string) :
  In w (Dict.keys (ensure_history votes v)) -> w = v \/ In w (Dict.keys votes).
Proof.
  unfold ensure_history. destruct (Dict.mem votes v); [now right |].
  apply keys_set_incl.
Qed.

(** A request to the voting page keeps a store well formed. *)
Lemma store_ok_serve (st : store) (q : request) :
  store_ok st -> store_ok (serve st q).
Proof.
  intros Hok. pose proof Hok as (Hwf & Hwfv & Husers & Hkeys & Hnd & Hpairs
                                 & Htot).
  destruct (serve_cases st q Hwf) as [-> | (a & b & me & ua & ub & H)];
    [exact Hok |].
  pose proof (serve_wf st q Hwf) as Hwf'.
  pose proof (serve_totals st q Hwf) as Hdrift.
  assert (Hpersist : forall k r,
             Dict.get (users_file st) k = Some r ->
             exists r',
               Dict.get (users_file (serve st q)) k = Some r'
               /\ gender r' = gender r
               /\ (pic_truthy (pic r) = true -> pic_truthy (pic r') = true)).
  { intros k r Hk.
    destruct (serve_user st q k r Hwf Hk) as (r' & G & _ & Hp & Hg & _).
    exists r'. rewrite Hp. tauto. }
  set (st' := serve st q) in *. set (v := req_user q) in *.
  unfold vote_recorded in H. cbv zeta in H.
  destruct H as (Hme & Hua & Hub & Hab & Hav & Hbv & Hpa & Hpb & Hga & Hgb & _
                 & Hsorted & Hnew & _ & _ & _ & _ & Gkeys & Hvotes).
  assert (Hhist : forall w,
             history st' w
             = if (w =? v)%string then history st v ++ [(a, b)]
               else history st w).
  { intros w. unfold history at 1. rewrite Hvotes, tried_of_set.
    destruct (w =? v)%string; [reflexivity |].
    apply tried_of_ensure_history. }
  assert (Hnewpair : pair_ok (users_file st) v (a, b)).
  { unfold pair_ok. cbn [fst snd]. repeat split; try assumption.
    exists me, ua, ub. repeat split; assumption. }
  unfold store_ok.
  repeat match goal with |- _ /\ _ => split end.
  - exact Hwf'.
  - rewrite Hvotes. apply wf_set. now apply ensure_history_wf.
  - intros u r' Hu.
    assert (Hin : In u (Dict.keys (users_file st))).
    { rewrite <- Gkeys. apply get_some_in in Hu. now apply (in_map fst) in Hu. }
    apply get_in_keys in Hin. destruct Hin as [r Hr].
    destruct (serve_user st q u r Hwf Hr)
      as (r'' & G & _ & Hp & _ & Hm & Ht).
    fold st' in G. rewrite Hu in G. injection G as <-.
    destruct (Husers _ _ Hr) as (He & Hpic & Hm0 & Ht0).
    unfold user_ok. rewrite Hp. repeat split; try assumption; [lia | now apply Ht].
  - intros w Hw. rewrite Gkeys. rewrite Hvotes in Hw.
    apply keys_set_incl in Hw. destruct Hw as [-> | Hw].
    + apply get_some_in in Hme. now apply (in_map fst) in Hme.
    + apply ensure_history_keys in Hw. destruct Hw as [-> | Hw].
      * apply get_some_in in Hme. now apply (in_map fst) in Hme.
      * now apply Hkeys.
  - intros w. rewrite Hhist. destruct (w =? v)%string; [| apply Hnd].
    apply NoDup_snoc; [apply Hnd | exact Hnew].
  - intros w p Hp. rewrite Hhist in Hp.
    apply pair_ok_persists with (users := users_file st); [exact Hpersist |].
    destruct (String.eqb_spec w v) as [-> | Hne]; [| now apply Hpairs].
    apply in_app_or in Hp. destruct Hp as [Hp | [<- | []]];
      [now apply Hpairs | exact Hnewpair].
  - rewrite <- (keys_length _ (users_file st')), Gkeys, keys_length. lia.
Qed.

(** Every run of the application keeps a store well formed. *)
Lemma store_ok_step (st : store) (ev : event) :
  store_ok st -> store_ok (app_step hash_password st ev).
Proof.
  intros Hok. destruct ev as [action email pw g | u file saved | q].
  - destruct action.
    + cbn [app_step]. rewrite submit_login.
      destruct (endswith email "@nirmauni.ac.in"); [| exact Hok].
      destruct (Dict.get (users_file st) email) as [u |]; [| exact Hok].
      destruct (password u =? hash_password pw)%string; exact Hok.
    + cbn [app_step]. now apply store_ok_register.
  - now apply store_ok_upload.
  - cbn [app_step]. now apply store_ok_serve.
Qed.

Lemma store_ok_initial : store_ok initial_store.
Proof.
  unfold store_ok, initial_store. cbn [users_file votes_file].
  repeat match goal with |- _ /\ _ => split end;
    try reflexivity; try discriminate; try (intros; contradiction).
  intros v. unfold history, tried_of. cbn. constructor.
Qed.

(** X19: every store the application reaches from the two empty files, by
    any registrations, logins, uploads and requests to the voting page, is
    well formed: the keys of both dicts are distinct; every user has an
    e-mail of the domain, no photo or a non-empty photo path, at most 15
    stored timestamps and a match count of 0 or more; every history
    belongs to a user, repeats no pair, and holds only sorted pairs of
    two different users other than the voter, with photos and of the
    voter's gender; and the sum of all ratings is within half the sum of
    the match counts of 1200 times the number of users. *)
Theorem reachable_store_ok (evs : list event) :
  (forall st, store_ok st -> store_ok (app_run hash_password st evs))
  /\ store_ok (app_run hash_password initial_store evs).
Proof.
  assert (H : forall st,
             store_ok st -> store_ok (app_run hash_password st evs)).
  { induction evs as [| ev rest IH]; intros st Hok; [exact Hok |].
    unfold app_run in *. cbn [fold_left]. apply IH.
    now apply store_ok_step. }
  split; [exact H | apply H, store_ok_initial].
Qed.

End AccountsMore.

Lemma register_effect_witness :
  endswith "x@nirmauni.ac.in" "@nirmauni.ac.in" = true
  /\ users_file
       (snd (fst (submit (fun s => s) initial_store (mkSession false None)
                         Register "x@nirmauni.ac.in" "secret" (Some Female))))
     = [("x@nirmauni.ac.in"%string,
         mkUser "secret" 1200 None Female [] 0)].
Proof.
  split; [reflexivity |].
  destruct (register_effect (fun s => s) initial_store (mkSession false None)
              "x@nirmauni.ac.in" "secret" (Some Female))
    as (_ & _ & Hiff & _ & Happ & _).
  apply (Happ Female); [| reflexivity].
  apply Hiff. repeat split; discriminate.
Defined.

Lemma login_effect_witness :
  fst (fst (submit (fun s => s)
              (mkStore [("x@nirmauni.ac.in"%string,
                         mkUser "secret" 1200 None Female [] 0)]
                       [])
              (mkSession false None) Login "x@nirmauni.ac.in" "secret" None))
  = LoggedIn.
Proof.
  destruct (login_effect (fun s => s)
              (mkStore [("x@nirmauni.ac.in"%string,
                         mkUser "secret" 1200 None Female [] 0)]
                       [])
              (mkSession false None) "x@nirmauni.ac.in" "secret" None)
    as (_ & _ & _ & _ & Hround).
  apply (Hround initial_store (mkSession false None) (Some Female)).
  reflexivity.
Defined.

Lemma reachable_store_ok_witness :
  store_ok initial_store
  /\ store_ok
       (app_run (fun s => s) initial_store
          [SubmitEv Register "a@nirmauni.ac.in" "pa" (Some Male);
           SubmitEv Register "b@nirmauni.ac.in" "pb" (Some Male);
           SubmitEv Register "v@nirmauni.ac.in" "pv" (Some Male);
           UploadEv "a@nirmauni.ac.in" true true;
           UploadEv "b@nirmauni.ac.in" true true;
           UploadEv "v@nirmauni.ac.in" true false;
           VoteEv (mkRequest "v@nirmauni.ac.in" 10 0 true false);
           VoteEv (mkRequest "v@nirmauni.ac.in" 20 0 false true)]).
Proof.
  split; [apply store_ok_initial |].
  apply (proj1 (reachable_store_ok (fun s => s) _) initial_store).
  apply store_ok_initial.
Defined.
